(** * Validation of decoded documents against per-field validators

    A shallow embedding of [validation.go] (package [validation]) and the
    properties of its type, value and rights checks and of [Validate].

    Conventions of the embedding.
    - A decoded document is a tree of [value]s: what [encoding/json] produces
      with [UseNumber] ([nil], [bool], [string], [json.Number],
      [[]interface{}], [map[string]interface{}]).  Values are immutable trees:
      the sharing Go keeps between the input map and the output map is not
      modelled.
    - A Go [map[string]interface{}] is a [gmap string value]; [range] over it
      visits [map_to_list].  The validators map is given as the list of its
      entries in the order [range] visits them, so every statement about
      [Validate] holds for every visiting order.
    - Go [int] is [Z] (only compared, never computed with); [float64] is
      [spec_float] with the IEEE comparison [SFcompare].
    - A Go call that returns [(T, error)] returns [option T]; code that can
      panic returns [result].
    - The functions of other packages whose code decides nothing here are
      section variables: [tools.ReadDeep], [tools.WriteDeep],
      [regexp.Compile] and [json.Number.Float64]. *)

From stdpp Require Import gmap strings list fin_maps.
From Stdlib Require Import Ascii Floats.SpecFloat.

#[local] Set Warnings "-register-all".
#[local] Open Scope Z_scope.

(** ** Panics and the error monad *)

Inductive panic : Type :=
| accessor_error          (* panic(err) after tools.ReadDeep / tools.WriteDeep *)
| regexp_error            (* log.Panic(err) after regexp.Compile *)
| nil_dereference         (* method call on a nil reflect.Type *)
| index_out_of_range      (* parts[1], validator.Rights[usage] *)
| slice_bounds.           (* validator.Type[0:2] on a shorter string *)

Inductive result (A : Type) : Type :=
| Ok (a : A)
| Panic (p : panic).
Arguments Ok {A} a.
Arguments Panic {A} p.

#[global] Instance result_ret : MRet result := fun A a => Ok a.

#[global] Instance result_bind : MBind result := fun A B k r =>
  match r with
  | Ok a => k a
  | Panic p => Panic p
  end.

(** ** Constants *)

Definition UNAUTHENTICATED : Z := 0.
Definition USER : Z := 1.
Definition OWNER : Z := 2.
Definition ADMIN : Z := 3.
Definition NONE : Z := 4.

Definition INIT : Z := 0.
Definition GET : Z := 1.
Definition SET : Z := 2.

(** ** Values *)

Inductive value : Type :=
| VNil
| VBool (b : bool)
| VString (s : string)
| VNumber (n : string)                  (* json.Number, a string type *)
| VSlice (l : list value)               (* []interface{} *)
| VMap (m : gmap string value).         (* map[string]interface{} *)

Definition float64 : Type := spec_float.

(** [reflect.TypeOf(v)], as the string its [String] method returns;
    [None] is the nil [reflect.Type] of a nil interface. *)
Definition TypeOf (v : value) : option string :=
  match v with
  | VNil => None
  | VBool _ => Some "bool"
  | VString _ => Some "string"
  | VNumber _ => Some "json.Number"
  | VSlice _ => Some "[]interface {}"
  | VMap _ => Some "map[string]interface {}"
  end.

(** ** Library functions with a fixed meaning *)

Definition is_hex_digit (c : Ascii.ascii) : bool :=
  let n := Ascii.N_of_ascii c in
  ((48 <=? n) && (n <=? 57) || (97 <=? n) && (n <=? 102)
   || (65 <=? n) && (n <=? 70))%N.

Definition is_lower_hex_digit (c : Ascii.ascii) : bool :=
  let n := Ascii.N_of_ascii c in
  ((48 <=? n) && (n <=? 57) || (97 <=? n) && (n <=? 102))%N.

(** Modelled from the spec: [bson.IsObjectIdHex], of package
    [gopkg.in/mgo.v2/bson], is not part of the sources; the identifier form is
    "24 hex characters" (the package tests the length and hex-decodes). *)
Definition IsObjectIdHex (s : string) : bool :=
  (String.length s =? 24)%nat && forallb is_hex_digit (String.list_ascii_of_string s).

(** [strings.SplitAfter(s, "]")]: [s] cut after each ["]"]. *)
Fixpoint SplitAfter_bracket (s : string) : list string :=
  match s with
  | EmptyString => [EmptyString]
  | String c rest =>
      if Ascii.eqb c "]"%char then String c EmptyString :: SplitAfter_bracket rest
      else match SplitAfter_bracket rest with
           | piece :: pieces => String c piece :: pieces
           | [] => [String c EmptyString]
           end
  end.

(** [x >= y] and [x <= y] on [float64]: false as soon as one side is NaN. *)
Definition float64_ge (x y : float64) : bool :=
  match SFcompare x y with
  | Some Gt | Some Eq => true
  | _ => false
  end.

Definition float64_le (x y : float64) : bool := SFleb x y.

(** ** Structures *)

Module DataError.
Record t : Type := mk {
  Type_ : string;
  Reason : string;
  Field : string;
  Value : value;            (* interface{}; [VNil] when left out *)
}.
End DataError.

(** A [*DataError]; [None] is the nil pointer a custom test may return. *)
Abbreviation DataErrorPtr := (option DataError.t).

Module Options.
Record t : Type := mk {
  Usage : Z;
  UserRights : Z;
  Args : value;
}.
End Options.

Module Boundaries.
Record t : Type := mk {
  Min : float64;
  Max : float64;
}.
(** The zero value of the struct: both fields [+0]. *)
Definition zero : t := mk (S754_zero false) (S754_zero false).
End Boundaries.

Module Validator.
Record t : Type := mk {
  Type_ : string;
  Field : string;
  Regexp : string;
  Rights : Z * Z * Z;                                (* [3]int *)
  Boundaries : Boundaries.t;
  IsRequired : bool;
  Default : option (value -> value);                 (* nil or a func *)
  CustomTest : option (value -> bool * DataErrorPtr);
}.

(** [regexp.Compile] is the argument [Compile]: [None] when the pattern does
    not compile, otherwise the compiled pattern's [MatchString]. *)
Definition ExecRegexp (Compile : string -> option (string -> bool))
    (v : t) (str : string) : option bool :=
  match Compile (Regexp v) with
  | None => None
  | Some validate => Some (validate str)
  end.

Definition CheckBoundaries (v : t) (value : float64) : bool :=
  float64_ge value (Boundaries.Min (Boundaries v))
  && float64_le value (Boundaries.Max (Boundaries v)).

Definition CheckRights (v : t) (userRights usage : Z) : bool :=
  userRights >=? usage.

(** [v.Rights[usage]] *)
Definition Rights_at (v : t) (usage : Z) : result Z :=
  let '(r0, r1, r2) := Rights v in
  if usage =? 0 then Ok r0
  else if usage =? 1 then Ok r1
  else if usage =? 2 then Ok r2
  else Panic index_out_of_range.
End Validator.

Abbreviation errors_t := (list DataErrorPtr).

(** [&DataError{...}] with the four fields in the order of the struct. *)
Definition new_error (type reason field : string) (v : value) : DataErrorPtr :=
  Some (DataError.mk type reason field v).

(** ** The checks *)

Definition checkRights (validator : Validator.t) (usage userRights : Z)
    (errors : errors_t) : result (bool * errors_t) :=
  required ← Validator.Rights_at validator usage;
  if negb (Validator.CheckRights validator userRights required) then
    Ok (false, errors ++ [new_error "Validation error" "Insufficient rights"
                            (Validator.Field validator) VNil])
  else Ok (true, errors).

(** The [reflect.Slice] case of [checkType], after the test on the prefix:
    the loop over the elements. *)
Fixpoint checkType_elements (validator : Validator.t) (_type : string)
    (elements : list value) (errors : errors_t) : result (bool * errors_t) :=
  match elements with
  | [] => Ok (true, errors)
  | value :: rest =>
      match TypeOf value with
      | None => Panic nil_dereference
      | Some vtype =>
          if negb (vtype =? _type)%string then
            match value with
            | VString stringValue =>
                if (_type =? "bson.ObjectId")%string && IsObjectIdHex stringValue
                then Ok (true, errors)
                else Ok (false, errors ++ [new_error "Validation error" "Type mismatch"
                           (Validator.Field validator) (VString ("[] contains " +:+ vtype))])
            | _ => Ok (false, errors ++ [new_error "Validation error" "Type mismatch"
                           (Validator.Field validator) (VString ("[] contains " +:+ vtype))])
            end
          else checkType_elements validator _type rest errors
      end
  end.

(** The [reflect.Map] case of [checkType]: the loop over the entries. *)
Fixpoint checkType_entries (validator : Validator.t) (parts : list string)
    (entries : list (string * value)) (errors : errors_t) : result (bool * errors_t) :=
  match entries with
  | [] => Ok (true, errors)
  | (key, value) :: rest =>
      match parts !! 0%nat with
      | None => Panic index_out_of_range
      | Some part0 =>
          if (part0 =? "map[bson.ObjectId]")%string && negb (IsObjectIdHex key) then
            Ok (false, errors ++ [new_error "Validation error" "Type mismatch"
                  (Validator.Field validator)
                  (VString ("one of the indexes at least is not valid ObjectId: " +:+ key))])
          else
            match TypeOf value with
            | None => Panic nil_dereference
            | Some vtype =>
                match parts !! 1%nat with
                | None => Panic index_out_of_range
                | Some part1 =>
                    if negb (vtype =? part1)%string then
                      Ok (false, errors ++ [new_error "Validation error" "Type mismatch"
                            (Validator.Field validator)
                            (VString ("one of the map values is of type: " +:+ vtype))])
                    else checkType_entries validator parts rest errors
                end
            end
      end
  end.

Definition checkType (validator : Validator.t) (valueToTest : value)
    (errors : errors_t) : result (bool * errors_t) :=
  match valueToTest with
  | VSlice elements =>
      if (String.length (Validator.Type_ validator) <? 2)%nat then Panic slice_bounds
      else
        let array := String.substring 0 2 (Validator.Type_ validator) in
        let _type := String.substring 2 (String.length (Validator.Type_ validator) - 2)
                       (Validator.Type_ validator) in
        if negb (array =? "[]")%string then
          Ok (false, errors ++ [new_error "Validation error" "Type mismatch"
                (Validator.Field validator) (VString "[]interface {}")])
        else checkType_elements validator _type elements errors
  | VMap m =>
      let parts := SplitAfter_bracket (Validator.Type_ validator) in
      checkType_entries validator parts (map_to_list m) errors
  | _ =>
      match TypeOf valueToTest with
      | Some _type =>
          if negb (_type =? Validator.Type_ validator)%string then
            match valueToTest with
            | VString s =>
                if IsObjectIdHex s then Ok (true, errors)
                else Ok (false, errors ++ [new_error "Validation error" "Type mismatch"
                           (Validator.Field validator) (VString _type)])
            | _ => Ok (false, errors ++ [new_error "Validation error" "Type mismatch"
                           (Validator.Field validator) (VString _type)])
            end
          else Ok (true, errors)
      | None => Ok (true, errors)
      end
  end.

(** The last stage of [checkValue]: the user's custom test. *)
Definition customTest (validator : Validator.t) (valueToTest : value)
    (errors : errors_t) : bool * errors_t :=
  match Validator.CustomTest validator with
  | Some test =>
      let '(ok, err) := test valueToTest in
      if negb ok then (false, errors ++ [err]) else (true, errors)
  | None => (true, errors)
  end.

Section Validation.

(** [tools.ReadDeep(_map, path)] and [tools.WriteDeep(dest, path, value)]:
    [None] when they return an error. *)
Variable ReadDeep : gmap string value -> string -> option value.
Variable WriteDeep : gmap string value -> string -> value -> option (gmap string value).
(** [regexp.Compile], see [Validator.ExecRegexp]. *)
Variable regexp_Compile : string -> option (string -> bool).
(** [value.Float64()] of a [json.Number], its error dropped as in
    [n, _ := value.Float64()]. *)
Variable Float64 : string -> float64.

Definition checkValue (validator : Validator.t) (valueToTest : value)
    (errors : errors_t) : result (bool * errors_t) :=
  match valueToTest with
  | VString value =>
      if negb (Validator.Regexp validator =? "")%string then
        match Validator.ExecRegexp regexp_Compile validator value with
        | None => Panic regexp_error
        | Some ok =>
            if negb ok then
              Ok (false, errors ++ [new_error "Validation error" "Regex not match"
                    (Validator.Field validator) (VString value)])
            else Ok (customTest validator valueToTest errors)
        end
      else Ok (customTest validator valueToTest errors)
  | VNumber value =>
      let n := Float64 value in
      if negb (Validator.CheckBoundaries validator n) then
        Ok (false, errors ++ [new_error "Validation error" "Out of boundaries"
              (Validator.Field validator) (VNumber value)])
      else Ok (customTest validator valueToTest errors)
  | _ => Ok (customTest validator valueToTest errors)
  end.

(** [value == nil || (Kind == Slice && len(value) == 0)] *)
Definition is_absent (value : value) : bool :=
  match value with
  | VNil => true
  | VSlice [] => true
  | _ => false
  end.

(** One turn of the loop of [Validate], on the entry [(path, validator)]. *)
Definition visit (_map : gmap string value) (opt : Options.t)
    (entry : string * Validator.t) (st : gmap string value * errors_t)
    : result (gmap string value * errors_t) :=
  let '(path, validator) := entry in
  let '(dest, errors) := st in
  match ReadDeep _map path with
  | None => Panic accessor_error
  | Some value =>
      if is_absent value then
        if Options.Usage opt =? INIT then
          if Validator.IsRequired validator then
            Ok (dest, errors ++ [new_error "Validation error" "Required" path VNil])
          else
            match Validator.Default validator with
            | Some default =>
                match WriteDeep dest path (default (Options.Args opt)) with
                | None => Panic accessor_error
                | Some dest' => Ok (dest', errors)
                end
            | None => Ok (dest, errors)
            end
        else Ok (dest, errors)
      else
        dest' ← (if Options.Usage opt =? SET then Ok (<[path := value]> dest)
                 else match WriteDeep dest path value with
                      | None => Panic accessor_error
                      | Some dest' => Ok dest'
                      end);
        '(ok, errors) ← checkType validator value errors;
        if negb ok then Ok (dest', errors) else
        '(ok, errors) ← checkValue validator value errors;
        if negb ok then Ok (dest', errors) else
        '(_, errors) ← checkRights validator (Options.Usage opt)
                         (Options.UserRights opt) errors;
        Ok (dest', errors)
  end.

(** The loop, from the state [st]. *)
Fixpoint range (_map : gmap string value) (opt : Options.t)
    (validators : list (string * Validator.t))
    (st : gmap string value * errors_t) : result (gmap string value * errors_t) :=
  match validators with
  | [] => Ok st
  | entry :: rest =>
      st' ← visit _map opt entry st;
      range _map opt rest st'
  end.

Definition Validate (validators : list (string * Validator.t))
    (_map : gmap string value) (opt : Options.t)
    : result (gmap string value * errors_t) :=
  range _map opt validators (∅, []).

(** *** Vocabulary of the statements *)

(** What one turn of the loop writes to the output when no check is run:
    the value of a present field, or the default of an absent one. *)
Definition copy_field (_map : gmap string value) (opt : Options.t)
    (entry : string * Validator.t) (dest : gmap string value)
    : option (gmap string value) :=
  let '(path, validator) := entry in
  value ← ReadDeep _map path;
  if is_absent value then
    if (Options.Usage opt =? INIT) && negb (Validator.IsRequired validator) then
      match Validator.Default validator with
      | Some default => WriteDeep dest path (default (Options.Args opt))
      | None => Some dest
      end
    else Some dest
  else if Options.Usage opt =? SET then Some (<[path := value]> dest)
  else WriteDeep dest path value.

(** The document made of the present fields and the defaults alone. *)
Definition copied_document (validators : list (string * Validator.t))
    (_map : gmap string value) (opt : Options.t) : option (gmap string value) :=
  foldl (fun dest entry => dest ≫= copy_field _map opt entry) (Some ∅) validators.

(** The value read for a field lets the three checks run to their end:
    the descriptor is long enough for the slicing done on a sequence and
    has the ["]"] looked for on a mapping, no element is nil, and the
    pattern tried on a string compiles. *)
Definition checkable (validator : Validator.t) (value : value) : Prop :=
  match value with
  | VSlice elements =>
      (2 ≤ String.length (Validator.Type_ validator))%nat
      ∧ Forall (fun element => element ≠ VNil) elements
  | VMap m =>
      (2 ≤ length (SplitAfter_bracket (Validator.Type_ validator)))%nat
      ∧ map_Forall (fun _ element => element ≠ VNil) m
  | VString _ =>
      Validator.Regexp validator = "" ∨ is_Some (regexp_Compile (Validator.Regexp validator))
  | _ => True
  end.

End Validation.

(** The result [r] with its errors put after [errors]. *)
Definition after {A : Type} (errors : errors_t) (r : result (A * errors_t))
    : result (A * errors_t) :=
  '(a, e) ← r; Ok (a, errors ++ e).

(** The order of [float64], read off the IEEE comparison. *)
Definition Flt (x y : float64) : Prop := SFcompare x y = Some Lt.
Definition Feq (x y : float64) : Prop := SFcompare x y = Some Eq.
Definition Fle (x y : float64) : Prop := Flt x y ∨ Feq x y.

Definition type_mismatch (validator : Validator.t) (what : string) : DataErrorPtr :=
  new_error "Validation error" "Type mismatch" (Validator.Field validator) (VString what).

Definition out_of_boundaries (validator : Validator.t) (n : string) : DataErrorPtr :=
  new_error "Validation error" "Out of boundaries" (Validator.Field validator) (VNumber n).

Definition insufficient_rights (validator : Validator.t) : DataErrorPtr :=
  new_error "Validation error" "Insufficient rights" (Validator.Field validator) VNil.

Definition required_missing (path : string) : DataErrorPtr :=
  new_error "Validation error" "Required" path VNil.

Definition regex_not_match (validator : Validator.t) (s : string) : DataErrorPtr :=
  new_error "Validation error" "Regex not match" (Validator.Field validator) (VString s).

(** The string has no ["]"]. *)
Definition no_bracket (s : string) : Prop :=
  Forall (fun c => c ≠ "]"%char) (String.list_ascii_of_string s).

(** The values of the default case of [checkType]: neither a sequence nor a
    mapping. *)
Definition is_scalar (x : value) : bool :=
  match x with
  | VSlice _ | VMap _ => false
  | _ => true
  end.

(** Two validators that differ at most in [IsRequired] and [Default]. *)
Definition same_checks (a b : Validator.t) : Prop :=
  Validator.Type_ a = Validator.Type_ b
  ∧ Validator.Field a = Validator.Field b
  ∧ Validator.Regexp a = Validator.Regexp b
  ∧ Validator.Rights a = Validator.Rights b
  ∧ Validator.Boundaries a = Validator.Boundaries b
  ∧ Validator.CustomTest a = Validator.CustomTest b.

(** ** A host for the examples

    Concrete stand-ins for the four functions of other packages, so that the
    pass can be run on the scenarios of the specification. *)

Module Host.

(** [strings.Split(path, ".")] *)
Fixpoint segments (path : string) : list string :=
  match path with
  | EmptyString => [EmptyString]
  | String c rest =>
      if Ascii.eqb c "."%char then EmptyString :: segments rest
      else match segments rest with
           | seg :: segs => String c seg :: segs
           | [] => [String c EmptyString]
           end
  end.

Fixpoint read (segs : list string) (v : value) : value :=
  match segs with
  | [] => v
  | key :: rest =>
      match v with
      | VMap m => match m !! key with
                  | Some sub => read rest sub
                  | None => VNil
                  end
      | _ => VNil
      end
  end.

(** Modelled from the spec: the path accessor is not part of the sources;
    [read(document, path)] follows the dot-separated segments through
    nested mappings, and a field that is not found reads as nil. *)
Definition ReadDeep (_map : gmap string value) (path : string) : option value :=
  Some (read (segments path) (VMap _map)).

Fixpoint write (segs : list string) (x : value) (m : gmap string value)
    : option (gmap string value) :=
  match segs with
  | [] => None
  | [key] => Some (<[key := x]> m)
  | key :: rest =>
      match m !! key with
      | Some (VMap sub) => sub' ← write rest x sub; Some (<[key := VMap sub']> m)
      | Some VNil | None => sub' ← write rest x ∅; Some (<[key := VMap sub']> m)
      | Some _ => None
      end
  end.

(** Modelled from the spec: [write(document, path, value)] creates the
    intermediate mappings it needs; a path that runs through a value that
    is not a mapping is malformed. *)
Definition WriteDeep (dest : gmap string value) (path : string) (x : value)
    : option (gmap string value) :=
  write (segments path) x dest.

Definition is_plain (c : Ascii.ascii) : bool :=
  let n := Ascii.N_of_ascii c in
  ((48 <=? n) && (n <=? 57) || (97 <=? n) && (n <=? 122)
   || (65 <=? n) && (n <=? 90) || (n =? 32))%N.

Fixpoint contains (pat s : string) : bool :=
  String.prefix pat s
  || match s with
     | EmptyString => false
     | String _ rest => contains pat rest
     end.

(** [regexp.Compile] on the two kinds of pattern the examples use: a
    pattern of letters, digits and spaces compiles to the search for it as
    a substring; any other pattern, such as the unclosed group ["("], is
    reported as not compiling. *)
Definition regexp_Compile (pattern : string) : option (string -> bool) :=
  if forallb is_plain (String.list_ascii_of_string pattern)
  then Some (contains pattern)
  else None.

(** Decimal digits, most significant first: the number read so far, the
    count of digits read and the rest of the string. *)
Fixpoint digits (s : string) (acc : Z) (count : nat) : Z * nat * string :=
  match s with
  | String c rest =>
      let n := Ascii.N_of_ascii c in
      if ((48 <=? n) && (n <=? 57))%N
      then digits rest (10 * acc + (Z.of_N n - 48)) (S count)
      else (acc, count, s)
  | EmptyString => (acc, count, s)
  end.

Definition sign_of (s : string) : bool * string :=
  match s with
  | String "-"%char rest => (true, rest)
  | _ => (false, s)
  end.

(** The decimal exponent after the mantissa, [None] on a syntax error. *)
Definition exponent (s : string) : option Z :=
  match s with
  | EmptyString => Some 0
  | String c rest =>
      if Ascii.eqb c "e"%char || Ascii.eqb c "E"%char then
        let '(neg, rest) :=
          match rest with
          | String "+"%char r => (false, r)
          | String "-"%char r => (true, r)
          | _ => (false, rest)
          end in
        match digits rest 0 0 with
        | (_, O, _) => None
        | (e, _, EmptyString) => Some (if neg then - e else e)
        | _ => None
        end
      else None
  end.

(** The [float64] nearest to [(-1)^neg * m * 10^e] (ties to even). *)
Definition round (neg : bool) (m e : Z) : float64 :=
  match m with
  | Zpos p =>
      if 0 <=? e then binary_normalize 53 1024 ((if neg then -1 else 1) * m * 10 ^ e) 0 false
      else SFdiv 53 1024 (S754_finite neg p 0)
             (S754_finite false (Z.to_pos (10 ^ (- e))) 0)
  | _ => S754_zero neg
  end.

(** [json.Number.Float64] on the decimal literals of JSON, which is what
    the decoder stores in a [json.Number]: digits, an optional fraction and
    an optional exponent.  Other strings are not used with this host and
    read as 0. *)
Definition Float64 (n : string) : float64 :=
  let '(neg, s) := sign_of n in
  let '(int, icount, rest) := digits s 0 0 in
  let '(m, fcount, rest, ok) :=
    match rest with
    | String "."%char r =>
        let '(m, k, r') := digits r int 0 in (m, k, r', negb (Nat.eqb k 0))
    | _ => (int, O, rest, true)
    end in
  match icount, ok, exponent rest with
  | S _, true, Some e => round neg m (e - Z.of_nat fcount)
  | _, _, _ => S754_zero false
  end.

Definition checkValue := checkValue regexp_Compile Float64.
Definition Validate := Validate ReadDeep WriteDeep regexp_Compile Float64.

(** The values of the scenarios. *)
Definition identifier : string := "507f1f77bcf86cd799439011".

Definition age : Validator.t :=
  Validator.mk "json.Number" "age" "" (UNAUTHENTICATED, UNAUTHENTICATED, USER)
    (Boundaries.mk (Float64 "0") (Float64 "120")) false None None.

Definition owner : Validator.t :=
  Validator.mk "bson.ObjectId" "owner" "" (ADMIN, USER, OWNER)
    Boundaries.zero false None None.

Definition owners : Validator.t :=
  Validator.mk "[]bson.ObjectId" "owners" "" (ADMIN, USER, OWNER)
    Boundaries.zero false None None.

Definition name : Validator.t :=
  Validator.mk "string" "name" "" (UNAUTHENTICATED, UNAUTHENTICATED, USER)
    Boundaries.zero true None None.

Definition tags : Validator.t :=
  Validator.mk "[]string" "tags" "" (UNAUTHENTICATED, UNAUTHENTICATED, USER)
    Boundaries.zero false None None.

(** A validator whose pattern is an unclosed group. *)
Definition code : Validator.t :=
  Validator.mk "string" "code" "(" (UNAUTHENTICATED, UNAUTHENTICATED, USER)
    Boundaries.zero false None None.


Definition scores : Validator.t :=
  Validator.mk "map[string]json.Number" "scores" ""
    (UNAUTHENTICATED, UNAUTHENTICATED, USER) Boundaries.zero false None None.

Definition members : Validator.t :=
  Validator.mk "map[bson.ObjectId]string" "members" ""
    (UNAUTHENTICATED, UNAUTHENTICATED, USER) Boundaries.zero false None None.

(** Boundaries with Max below Min. *)
Definition upside_down : Validator.t :=
  Validator.mk "json.Number" "level" "" (UNAUTHENTICATED, UNAUTHENTICATED, USER)
    (Boundaries.mk (Float64 "10") (Float64 "0")) false None None.

(** A validator with a pattern that compiles. *)
Definition nickname : Validator.t :=
  Validator.mk "string" "nickname" "abc" (UNAUTHENTICATED, UNAUTHENTICATED, USER)
    Boundaries.zero false None None.

End Host.

(** * Properties *)

(** ** The order of [float64] *)

Lemma SFcompare_antisym (x y : float64) (c : comparison) :
  SFcompare x y = Some c -> SFcompare y x = Some (CompOpp c).
Proof.
  destruct x as [sx|sx| |sx mx ex], y as [sy|sy| |sy my ey]; simpl; intros H;
    try discriminate; try (injection H as <-);
    try (destruct sx); try (destruct sy); try reflexivity.
  all: rewrite (Z.compare_antisym ex ey); destruct (ex ?= ey)%Z; simpl; try reflexivity.
  all: change (Pos.compare_cont Eq my mx) with (Pos.compare my mx);
       change (Pos.compare_cont Eq mx my) with (Pos.compare mx my);
       rewrite (Pos.compare_antisym mx my); destruct (mx ?= my)%positive; reflexivity.
Qed.

Lemma SFcompare_refl (x : float64) : x ≠ S754_nan -> SFcompare x x = Some Eq.
Proof.
  destruct x as [s|s| |s m e]; simpl; intros H; try congruence;
    try (destruct s; reflexivity).
  rewrite Z.compare_refl. change (Pos.compare_cont Eq m m) with (Pos.compare m m).
  rewrite Pos.compare_refl. destruct s; reflexivity.
Qed.

Lemma float64_ge_Fle (x y : float64) : float64_ge x y = true <-> Fle y x.
Proof.
  unfold float64_ge, Fle, Flt, Feq. split.
  - destruct (SFcompare x y) as [[]|] eqn:E; try discriminate; intros _;
      apply SFcompare_antisym in E; simpl in E; auto.
  - intros [H|H]; apply SFcompare_antisym in H; simpl in H; rewrite H; reflexivity.
Qed.

Lemma float64_le_Fle (x y : float64) : float64_le x y = true <-> Fle x y.
Proof.
  unfold float64_le, SFleb, Fle, Flt, Feq.
  destruct (SFcompare x y) as [[]|]; intuition discriminate.
Qed.

Lemma Fle_not_nan_l (x y : float64) : Fle x y -> x ≠ S754_nan.
Proof. intros [H|H] ->; discriminate. Qed.

Lemma Fle_not_nan_r (x y : float64) : Fle x y -> y ≠ S754_nan.
Proof. intros [H|H] ->; destruct x; discriminate. Qed.

Lemma Fle_refl (x : float64) : x ≠ S754_nan -> Fle x x.
Proof. intros H. right. apply SFcompare_refl, H. Qed.

Lemma Flt_not_Fle (x y : float64) : Flt x y -> ¬ Fle y x.
Proof.
  unfold Fle, Flt, Feq. intros H. apply SFcompare_antisym in H. simpl in H.
  rewrite H. intros [?|?]; discriminate.
Qed.

Lemma CheckBoundaries_Fle (validator : Validator.t) (x : float64) :
  Validator.CheckBoundaries validator x = true
  <-> Fle (Boundaries.Min (Validator.Boundaries validator)) x
      ∧ Fle x (Boundaries.Max (Validator.Boundaries validator)).
Proof.
  unfold Validator.CheckBoundaries.
  rewrite andb_true_iff, float64_ge_Fle, float64_le_Fle. reflexivity.
Qed.

(** With the zero value of [Boundaries] only the two zeros are within. *)
Lemma CheckBoundaries_zero (validator : Validator.t) (x : float64) :
  Validator.Boundaries validator = Boundaries.zero ->
  Validator.CheckBoundaries validator x = true <-> ∃ s, x = S754_zero s.
Proof.
  intros Hz. unfold Validator.CheckBoundaries, float64_ge, float64_le, SFleb.
  rewrite Hz. simpl. split.
  - destruct x as [s|s| |s m e]; simpl; try discriminate;
      try (destruct s; discriminate); eauto.
  - intros [s ->]. reflexivity.
Qed.

(** ** The rights check *)

Lemma checkRights_unfold (validator : Validator.t) (usage userRights required : Z)
    (errors : errors_t) :
  Validator.Rights_at validator usage = Ok required ->
  checkRights validator usage userRights errors
  = if required <=? userRights then Ok (true, errors)
    else Ok (false, errors ++ [insufficient_rights validator]).
Proof.
  intros H. unfold checkRights, Validator.CheckRights. rewrite H. simpl.
  rewrite Z.geb_leb. destruct (required <=? userRights); reflexivity.
Qed.

(** C6: the rights check returns true exactly when the caller's role is at
    least the role required for the usage, roles being ordered
    UNAUTHENTICATED < USER < OWNER < ADMIN < NONE; a caller below it gets the
    "Insufficient rights" error; and the check is monotone in the caller's
    role: what a role [R1] may do, every role [R2] above it may do. *)
Theorem checkRights_order_monotone (validator : Validator.t)
    (usage required R1 R2 : Z) (errors : errors_t) :
  Validator.Rights_at validator usage = Ok required ->
  (UNAUTHENTICATED < USER ∧ USER < OWNER ∧ OWNER < ADMIN ∧ ADMIN < NONE)
  ∧ (Validator.CheckRights validator R1 required = true <-> required ≤ R1)
  ∧ (checkRights validator usage R1 errors = Ok (true, errors) <-> required ≤ R1)
  ∧ (R1 < required ->
     checkRights validator usage R1 errors
     = Ok (false, errors ++ [insufficient_rights validator]))
  ∧ (R1 ≤ R2 ->
     checkRights validator usage R1 errors = Ok (true, errors) ->
     checkRights validator usage R2 errors = Ok (true, errors)).
Proof.
  intros Hreq.
  assert (Hiff : ∀ R, checkRights validator usage R errors = Ok (true, errors)
                      <-> required ≤ R).
  { intros R. rewrite (checkRights_unfold _ _ _ _ _ Hreq).
    destruct (Z.leb_spec required R); split; intros; try lia; try reflexivity.
    discriminate. }
  split; [unfold UNAUTHENTICATED, USER, OWNER, ADMIN, NONE; lia|].
  split; [unfold Validator.CheckRights; rewrite Z.geb_leb; apply Z.leb_le|].
  split; [apply Hiff|]. split.
  - intros Hlt. rewrite (checkRights_unfold _ _ _ _ _ Hreq).
    destruct (Z.leb_spec required R1); [lia|reflexivity].
  - intros Hle H1. apply Hiff. apply Hiff in H1. lia.
Qed.

(** ** The type check *)

Lemma lower_hex_is_hex (c : Ascii.ascii) :
  is_lower_hex_digit c = true -> is_hex_digit c = true.
Proof.
  unfold is_lower_hex_digit, is_hex_digit. intros ->. reflexivity.
Qed.

Lemma IsObjectIdHex_lower (s : string) :
  String.length s = 24%nat ->
  forallb is_lower_hex_digit (String.list_ascii_of_string s) = true ->
  IsObjectIdHex s = true.
Proof.
  intros Hlen Hhex. unfold IsObjectIdHex. rewrite Hlen. simpl.
  rewrite forallb_forall in *. intros c Hc. apply lower_hex_is_hex, Hhex, Hc.
Qed.

(** C5: against the descriptor [bson.ObjectId], a string of 24 lowercase
    hexadecimal characters passes the scalar type check although its type is
    [string]; a string of 23 characters, and a string of 24 characters that
    are not all hexadecimal, fail it with a "Type mismatch" error. *)
Theorem checkType_identifier_string (validator : Validator.t) (s : string)
    (errors : errors_t) :
  Validator.Type_ validator = "bson.ObjectId" ->
  (String.length s = 24%nat ->
   forallb is_lower_hex_digit (String.list_ascii_of_string s) = true ->
   checkType validator (VString s) errors = Ok (true, errors))
  ∧ (String.length s = 23%nat ->
     checkType validator (VString s) errors
     = Ok (false, errors ++ [type_mismatch validator "string"]))
  ∧ (String.length s = 24%nat ->
     forallb is_hex_digit (String.list_ascii_of_string s) = false ->
     checkType validator (VString s) errors
     = Ok (false, errors ++ [type_mismatch validator "string"])).
Proof.
  intros Hty. unfold checkType. simpl. rewrite Hty. simpl. repeat split.
  - intros Hlen Hhex. rewrite (IsObjectIdHex_lower s Hlen Hhex). reflexivity.
  - intros Hlen. unfold IsObjectIdHex. rewrite Hlen. reflexivity.
  - intros Hlen Hhex. unfold IsObjectIdHex. rewrite Hlen, Hhex. reflexivity.
Qed.

(** C2, at the input where the code departs from it: with the descriptor
    [[]bson.ObjectId], the loop over the elements returns true at the first
    element that is an identifier string, so the [json.Number] after it is
    never looked at; put first, the same element is reported. *)
Theorem checkType_slice_stops_at_identifier :
  checkType Host.owners (VSlice [VString Host.identifier; VNumber "42"]) []
  = Ok (true, [])
  ∧ checkType Host.owners (VSlice [VNumber "42"; VString Host.identifier]) []
    = Ok (false, [type_mismatch Host.owners "[] contains json.Number"]).
Proof. split; vm_compute; reflexivity. Qed.

(** C4, at the input where the code departs from it: with the scalar
    descriptor [string], a mapping with an entry makes the type check panic
    on [parts[1]], and the empty mapping passes it; no "Type mismatch" is
    recorded in either case. *)
Theorem checkType_mapping_against_scalar :
  checkType Host.name (VMap {["a" := VString "b"]}) [] = Panic index_out_of_range
  ∧ checkType Host.name (VMap ∅) [] = Ok (true, []).
Proof. split; vm_compute; reflexivity. Qed.

(** ** The value check *)

Section Properties.

Variable ReadDeep : gmap string value -> string -> option value.
Variable WriteDeep : gmap string value -> string -> value -> option (gmap string value).
Variable regexp_Compile : string -> option (string -> bool).
Variable Float64 : string -> float64.

Ltac open_checkValue := unfold checkValue.
Ltac open_visit := unfold visit.
Ltac open_Validate := unfold Validate.
Ltac open_copy := unfold copied_document, copy_field.
Ltac open_checkable := unfold checkable.
Ltac step_range := cbn [range].

#[local] Abbreviation checkValue := (checkValue regexp_Compile Float64).
#[local] Abbreviation visit := (visit ReadDeep WriteDeep regexp_Compile Float64).
#[local] Abbreviation range := (range ReadDeep WriteDeep regexp_Compile Float64).
#[local] Abbreviation Validate := (Validate ReadDeep WriteDeep regexp_Compile Float64).
#[local] Abbreviation copy_field := (copy_field ReadDeep WriteDeep).
#[local] Abbreviation copied_document := (copied_document ReadDeep WriteDeep).
#[local] Abbreviation checkable := (checkable regexp_Compile).

Lemma checkValue_number (validator : Validator.t) (n : string) (errors : errors_t) :
  checkValue validator (VNumber n) errors
  = if Validator.CheckBoundaries validator (Float64 n)
    then Ok (customTest validator (VNumber n) errors)
    else Ok (false, errors ++ [out_of_boundaries validator n]).
Proof.
  open_checkValue.
  destruct (Validator.CheckBoundaries validator (Float64 n)); reflexivity.
Qed.

(** C9: on a number, the boundary check of the value check passes exactly
    when Min <= value <= Max, both ends included: the value check then goes
    on to the custom test, and passes when there is none; a value equal to
    Min or to Max is within, and a value strictly below Min or strictly
    above Max fails with the "Out of boundaries" error. *)
Theorem checkValue_boundaries_inclusive (validator : Validator.t) (n : string)
    (errors : errors_t) :
  let lo := Boundaries.Min (Validator.Boundaries validator) in
  let hi := Boundaries.Max (Validator.Boundaries validator) in
  let x := Float64 n in
  (Validator.CheckBoundaries validator x = true <-> Fle lo x ∧ Fle x hi)
  ∧ (Fle lo x ∧ Fle x hi ->
     checkValue validator (VNumber n) errors
     = Ok (customTest validator (VNumber n) errors))
  ∧ (Validator.CustomTest validator = None ->
     checkValue validator (VNumber n) errors = Ok (true, errors)
     <-> Fle lo x ∧ Fle x hi)
  ∧ (Fle lo hi -> x = lo ∨ x = hi -> Validator.CheckBoundaries validator x = true)
  ∧ (Flt x lo ∨ Flt hi x ->
     checkValue validator (VNumber n) errors
     = Ok (false, errors ++ [out_of_boundaries validator n])).
Proof.
  intros lo hi x. pose proof (CheckBoundaries_Fle validator x) as Hiff.
  fold lo hi in Hiff. split; [exact Hiff|]. split; [|split; [|split]].
  - intros Hin. apply Hiff in Hin. rewrite checkValue_number. fold x.
    rewrite Hin. reflexivity.
  - intros Hnone. rewrite checkValue_number. fold x. unfold customTest.
    rewrite Hnone, <- Hiff.
    destruct (Validator.CheckBoundaries validator x); split; intros H;
      try reflexivity; discriminate.
  - intros Hle [->| ->]; apply Hiff; split; auto.
    + apply Fle_refl, (Fle_not_nan_l _ _ Hle).
    + apply Fle_refl, (Fle_not_nan_r _ _ Hle).
  - intros Hout. rewrite checkValue_number. fold x.
    destruct (Validator.CheckBoundaries validator x) eqn:E; [|reflexivity].
    destruct (proj1 Hiff eq_refl) as [E1 E2].
    destruct Hout as [H|H]; apply Flt_not_Fle in H; contradiction.
Qed.

(** C10: the boundary check is run on every number, whether or not the
    validator was given boundaries; with the zero value of [Boundaries]
    (Min = 0, Max = 0) it lets through the value 0 only, and every number
    whose value is not 0 is rejected with the "Out of boundaries" error. *)
Theorem checkValue_boundaries_never_set (validator : Validator.t) (n : string)
    (errors : errors_t) :
  Validator.Boundaries validator = Boundaries.zero ->
  (Validator.CheckBoundaries validator (Float64 n) = true
   <-> ∃ s, Float64 n = S754_zero s)
  ∧ ((∀ s, Float64 n ≠ S754_zero s) ->
     checkValue validator (VNumber n) errors
     = Ok (false, errors ++ [out_of_boundaries validator n])).
Proof.
  intros Hz. pose proof (CheckBoundaries_zero validator (Float64 n) Hz) as Hiff.
  split; [exact Hiff|]. intros Hnz. rewrite checkValue_number.
  destruct (Validator.CheckBoundaries validator (Float64 n)) eqn:E; [|reflexivity].
  destruct (proj1 Hiff eq_refl) as [s Hs]. destruct (Hnz s Hs).
Qed.

(** ** The checks only add to the errors *)

Ltac frame :=
  unfold after; cbn [mbind result_bind negb]; rewrite ?app_assoc; reflexivity.

Lemma checkRights_after (validator : Validator.t) (usage userRights : Z)
    (e1 e2 : errors_t) :
  checkRights validator usage userRights (e1 ++ e2)
  = after e1 (checkRights validator usage userRights e2).
Proof.
  unfold checkRights.
  destruct (Validator.Rights_at validator usage) as [required|];
    cbn [mbind result_bind]; [|reflexivity].
  destruct (negb _); frame.
Qed.

Lemma checkType_elements_after (validator : Validator.t) (_type : string)
    (elements : list value) (e1 e2 : errors_t) :
  checkType_elements validator _type elements (e1 ++ e2)
  = after e1 (checkType_elements validator _type elements e2).
Proof.
  induction elements as [|element rest IH]; [frame|].
  cbn [checkType_elements].
  destruct (TypeOf element) as [vtype|]; [|reflexivity].
  destruct (negb (vtype =? _type)%string); [|exact IH].
  destruct element; try frame.
  destruct (_ && _); frame.
Qed.

Lemma checkType_entries_after (validator : Validator.t) (parts : list string)
    (entries : list (string * value)) (e1 e2 : errors_t) :
  checkType_entries validator parts entries (e1 ++ e2)
  = after e1 (checkType_entries validator parts entries e2).
Proof.
  induction entries as [|[key element] rest IH]; [frame|].
  cbn [checkType_entries].
  destruct (parts !! 0%nat) as [part0|]; [|reflexivity].
  destruct (_ && _); [frame|].
  destruct (TypeOf element) as [vtype|]; [|reflexivity].
  destruct (parts !! 1%nat) as [part1|]; [|reflexivity].
  destruct (negb _); [frame|exact IH].
Qed.

Lemma checkType_after (validator : Validator.t) (valueToTest : value)
    (e1 e2 : errors_t) :
  checkType validator valueToTest (e1 ++ e2)
  = after e1 (checkType validator valueToTest e2).
Proof.
  unfold checkType.
  destruct valueToTest; cbn [TypeOf];
    try (destruct (negb _); frame); try frame.
  - destruct (negb _); [|frame]. destruct (IsObjectIdHex s); frame.
  - destruct (_ <? _)%nat; [reflexivity|].
    cbv zeta. destruct (negb _); [frame|].
    apply checkType_elements_after.
  - apply checkType_entries_after.
Qed.

Lemma customTest_after (validator : Validator.t) (valueToTest : value)
    (e1 e2 : errors_t) :
  Ok (customTest validator valueToTest (e1 ++ e2))
  = after e1 (Ok (customTest validator valueToTest e2)).
Proof.
  unfold customTest.
  destruct (Validator.CustomTest validator) as [test|]; [|frame].
  destruct (test valueToTest) as [[] err]; frame.
Qed.

Lemma checkValue_after (validator : Validator.t) (valueToTest : value)
    (e1 e2 : errors_t) :
  checkValue validator valueToTest (e1 ++ e2)
  = after e1 (checkValue validator valueToTest e2).
Proof.
  open_checkValue.
  destruct valueToTest; try apply customTest_after.
  - destruct (negb _); [|apply customTest_after].
    destruct (Validator.ExecRegexp _ _ _) as [[]|]; cbn [negb];
      [apply customTest_after|frame|reflexivity].
  - cbv zeta. destruct (negb _); [frame|apply customTest_after].
Qed.

Lemma visit_after (_map : gmap string value) (opt : Options.t)
    (entry : string * Validator.t) (dest : gmap string value) (e1 e2 : errors_t) :
  visit _map opt entry (dest, e1 ++ e2) = after e1 (visit _map opt entry (dest, e2)).
Proof.
  open_visit. destruct entry as [path validator].
  destruct (ReadDeep _map path) as [value|]; [|reflexivity].
  destruct (is_absent value).
  { destruct (_ =? INIT); [|frame].
    destruct (Validator.IsRequired validator); [frame|].
    destruct (Validator.Default validator) as [default|]; [|frame].
    destruct (WriteDeep _ _ _); frame. }
  destruct (if Options.Usage opt =? SET then _ else _) as [dest'|];
    cbn [mbind result_bind]; [|reflexivity].
  rewrite checkType_after.
  destruct (checkType validator value e2) as [[[] e]|]; cbn [after mbind result_bind negb];
    try frame.
  rewrite checkValue_after.
  destruct (checkValue validator value e) as [[[] e']|];
    cbn [after mbind result_bind negb]; try frame.
  rewrite checkRights_after.
  destruct (checkRights validator _ _ e') as [[ok e'']|]; frame.
Qed.

Lemma range_after (_map : gmap string value) (opt : Options.t)
    (validators : list (string * Validator.t)) (dest : gmap string value)
    (e1 e2 : errors_t) :
  range _map opt validators (dest, e1 ++ e2)
  = after e1 (range _map opt validators (dest, e2)).
Proof.
  revert dest e2. induction validators as [|entry rest IH]; intros dest e2.
  - frame.
  - step_range. rewrite visit_after.
    destruct (visit _map opt entry (dest, e2)) as [[dest' e]|];
      cbn [after mbind result_bind]; [apply IH|reflexivity].
Qed.

Lemma range_app (_map : gmap string value) (opt : Options.t)
    (vs1 vs2 : list (string * Validator.t)) (st : gmap string value * errors_t) :
  range _map opt (vs1 ++ vs2) st
  = range _map opt vs1 st ≫= range _map opt vs2.
Proof.
  revert st. induction vs1 as [|entry rest IH]; intros st; [reflexivity|].
  cbn [app]; step_range.
  destruct (visit _map opt entry st) as [st'|]; cbn [mbind result_bind];
    [apply IH|reflexivity].
Qed.

(** ** The fields that are absent *)

Lemma is_absent_spec (value : value) :
  is_absent value = true <-> value = VNil ∨ value = VSlice [].
Proof.
  split.
  - destruct value as [| | | |[|element rest]|]; simpl; intros H;
      try discriminate; auto.
  - intros [->| ->]; reflexivity.
Qed.

Lemma visit_required_missing (_map : gmap string value) (opt : Options.t)
    (path : string) (validator : Validator.t)
    (dest : gmap string value) (errors : errors_t) (value : value) :
  Options.Usage opt = INIT ->
  Validator.IsRequired validator = true ->
  ReadDeep _map path = Some value ->
  is_absent value = true ->
  visit _map opt (path, validator) (dest, errors)
  = Ok (dest, errors ++ [required_missing path]).
Proof.
  intros Husage Hreq Hread Habs. open_visit.
  rewrite Hread, Habs, Husage, Hreq. reflexivity.
Qed.

Lemma visit_skipped (_map : gmap string value) (opt : Options.t)
    (path : string) (validator : Validator.t)
    (st : gmap string value * errors_t) (value : value) :
  ReadDeep _map path = Some value ->
  is_absent value = true ->
  Options.Usage opt = GET ∨ Options.Usage opt = SET
  ∨ (Options.Usage opt = INIT ∧ Validator.IsRequired validator = false
     ∧ Validator.Default validator = None) ->
  visit _map opt (path, validator) st = Ok st.
Proof.
  intros Hread Habs Hcase. open_visit. destruct st as [dest errors].
  rewrite Hread, Habs.
  destruct Hcase as [-> | [-> | (-> & -> & ->)]]; reflexivity.
Qed.


(** ** What is written to the output *)

Lemma visit_copy (_map : gmap string value) (opt : Options.t)
    (entry : string * Validator.t) (dest dest' : gmap string value)
    (errors errors' : errors_t) :
  visit _map opt entry (dest, errors) = Ok (dest', errors') ->
  copy_field _map opt entry dest = Some dest'.
Proof.
  open_visit. open_copy. destruct entry as [path validator].
  destruct (ReadDeep _map path) as [value|]; cbn [mbind option_bind]; [|discriminate].
  destruct (is_absent value).
  { destruct (_ =? INIT); cbn [andb]; [|intros [= <- _]; reflexivity].
    destruct (Validator.IsRequired validator); cbn [negb];
      [intros [= <- _]; reflexivity|].
    destruct (Validator.Default validator) as [default|];
      [|intros [= <- _]; reflexivity].
    destruct (WriteDeep _ _ _); [intros [= <- _]; reflexivity|discriminate]. }
  destruct (Options.Usage opt =? SET);
    [|destruct (WriteDeep dest path value) as [d|]; [|discriminate]];
    cbn [mbind result_bind];
    (destruct (checkType validator value errors) as [[[] e]|];
     cbn [mbind result_bind negb]; try discriminate;
     [|intros [= <- _]; reflexivity]);
    (destruct (checkValue validator value e) as [[[] e']|];
     cbn [mbind result_bind negb]; try discriminate;
     [|intros [= <- _]; reflexivity]);
    (destruct (checkRights validator _ _ e') as [[ok e'']|];
     cbn [mbind result_bind]; [intros [= <- _]; reflexivity|discriminate]).
Qed.

Lemma copy_from_None (_map : gmap string value) (opt : Options.t)
    (validators : list (string * Validator.t)) :
  foldl (fun dest entry => dest ≫= copy_field _map opt entry) None validators = None.
Proof. induction validators as [|entry rest IH]; [reflexivity|exact IH]. Qed.

Lemma range_copy (_map : gmap string value) (opt : Options.t)
    (validators : list (string * Validator.t)) (dest dest' : gmap string value)
    (errors errors' : errors_t) :
  range _map opt validators (dest, errors) = Ok (dest', errors') ->
  foldl (fun dest entry => dest ≫= copy_field _map opt entry) (Some dest) validators
  = Some dest'.
Proof.
  revert dest errors. induction validators as [|entry rest IH]; intros dest errors.
  - intros [= <- _]. reflexivity.
  - step_range.
    destruct (visit _map opt entry (dest, errors)) as [[d e]|] eqn:E;
      cbn [mbind result_bind]; [|discriminate].
    intros Hrest. cbn [foldl mbind option_bind].
    rewrite (visit_copy _ _ _ _ _ _ _ E). exact (IH _ _ Hrest).
Qed.

Lemma copy_field_SET (_map : gmap string value) (opt : Options.t)
    (path : string) (validator : Validator.t) (dest dest' : gmap string value) :
  Options.Usage opt = SET ->
  copy_field _map opt (path, validator) dest = Some dest' ->
  ∃ value, ReadDeep _map path = Some value
           ∧ dest' = if is_absent value then dest else <[path := value]> dest.
Proof.
  intros Husage. open_copy. rewrite Husage.
  destruct (ReadDeep _map path) as [value|]; cbn [mbind option_bind]; [|discriminate].
  change (SET =? INIT) with false. change (SET =? SET) with true. cbn [andb].
  destruct (is_absent value) eqn:E; intros [= <-]; exists value; rewrite E;
    split; reflexivity.
Qed.

Lemma copy_SET_other (_map : gmap string value) (opt : Options.t)
    (validators : list (string * Validator.t)) (dest dest' : gmap string value)
    (key : string) :
  Options.Usage opt = SET ->
  key ∉ validators.*1 ->
  foldl (fun dest entry => dest ≫= copy_field _map opt entry) (Some dest) validators
  = Some dest' ->
  dest' !! key = dest !! key.
Proof.
  intros Husage. revert dest.
  induction validators as [|[path validator] rest IH]; intros dest Hkey.
  - intros [= <-]. reflexivity.
  - cbn [foldl mbind option_bind].
    destruct (copy_field _map opt (path, validator) dest) as [d|] eqn:E;
      [|rewrite copy_from_None; discriminate].
    intros Hrest. rewrite fmap_cons in Hkey. apply not_elem_of_cons in Hkey as [Hne Hkey].
    rewrite (IH _ Hkey Hrest).
    destruct (copy_field_SET _ _ _ _ _ _ Husage E) as (value & _ & ->).
    destruct (is_absent value); [reflexivity|].
    apply lookup_insert_ne. cbn in Hne. congruence.
Qed.



(** ** When the pass runs to its end *)

Lemma checkType_elements_total (validator : Validator.t) (_type : string)
    (elements : list value) (errors : errors_t) :
  Forall (fun element => element ≠ VNil) elements ->
  ∃ ok errors', checkType_elements validator _type elements errors = Ok (ok, errors').
Proof.
  induction 1 as [|element rest Hnil _ IH]; cbn [checkType_elements]; [eauto|].
  destruct element; try congruence; cbn [TypeOf];
    (destruct (negb _); [|exact IH]); eauto.
  destruct (_ && _); eauto.
Qed.

Lemma checkType_entries_total (validator : Validator.t) (parts : list string)
    (entries : list (string * value)) (errors : errors_t) :
  (2 ≤ length parts)%nat ->
  Forall (fun entry => entry.2 ≠ VNil) entries ->
  ∃ ok errors', checkType_entries validator parts entries errors = Ok (ok, errors').
Proof.
  intros Hparts.
  destruct parts as [|part0 [|part1 parts]]; cbn in Hparts; try lia.
  induction 1 as [|[key element] rest Hnil _ IH]; cbn [checkType_entries]; [eauto|].
  cbn [lookup list_lookup]. destruct (_ && _); [eauto|].
  destruct element; cbn in Hnil; try congruence; cbn [TypeOf];
    (destruct (negb _); [|exact IH]); eauto.
Qed.

Lemma checkType_total (validator : Validator.t) (x : value) (errors : errors_t) :
  checkable validator x ->
  ∃ ok errors', checkType validator x errors = Ok (ok, errors').
Proof.
  open_checkable. unfold checkType. destruct x; cbn [TypeOf]; intros Hx;
    try (destruct (negb _); eauto; fail); eauto.
  - destruct (negb _); eauto. destruct (IsObjectIdHex s); eauto.
  - destruct Hx as [Hlen Hnil].
    destruct (Nat.ltb_spec (String.length (Validator.Type_ validator)) 2); [lia|].
    cbv zeta. destruct (negb _); eauto. apply checkType_elements_total, Hnil.
  - destruct Hx as [Hparts Hnil]. apply checkType_entries_total; [exact Hparts|].
    apply Forall_forall. intros [key element] Hin.
    apply elem_of_map_to_list in Hin. exact (Hnil _ _ Hin).
Qed.

Lemma checkValue_total (validator : Validator.t) (x : value) (errors : errors_t) :
  checkable validator x ->
  ∃ ok errors', checkValue validator x errors = Ok (ok, errors').
Proof.
  assert (Hcustom : ∀ y e, ∃ ok errors', Ok (customTest validator y e) = Ok (ok, errors')).
  { intros y e. destruct (customTest validator y e). eauto. }
  open_checkable. open_checkValue. destruct x; intros Hx; try apply Hcustom.
  - destruct Hx as [-> | [validate Hcompile]]; [apply Hcustom|].
    destruct (negb _); [|apply Hcustom].
    unfold Validator.ExecRegexp. rewrite Hcompile.
    destruct (negb _); [eauto|apply Hcustom].
  - cbv zeta. destruct (negb _); [eauto|apply Hcustom].
Qed.

Lemma checkRights_total (validator : Validator.t) (usage userRights : Z)
    (errors : errors_t) :
  usage = INIT ∨ usage = GET ∨ usage = SET ->
  ∃ ok errors', checkRights validator usage userRights errors = Ok (ok, errors').
Proof.
  intros Husage. unfold checkRights, Validator.Rights_at.
  destruct (Validator.Rights validator) as [[r0 r1] r2].
  destruct Husage as [-> | [-> | ->]]; cbn; destruct (negb _); eauto.
Qed.

Lemma visit_total (_map : gmap string value) (opt : Options.t) (path : string)
    (validator : Validator.t) (dest : gmap string value) (errors : errors_t)
    (x : value) :
  Options.Usage opt = INIT ∨ Options.Usage opt = GET ∨ Options.Usage opt = SET ->
  ReadDeep _map path = Some x ->
  (is_absent x = false -> checkable validator x) ->
  (∀ d y, is_Some (WriteDeep d path y)) ->
  ∃ dest' errors', visit _map opt (path, validator) (dest, errors) = Ok (dest', errors').
Proof.
  intros Husage Hread Hcheck Hwrite. open_visit. rewrite Hread.
  destruct (is_absent x).
  { destruct (_ =? INIT); [|eauto].
    destruct (Validator.IsRequired validator); [eauto|].
    destruct (Validator.Default validator) as [default|]; [|eauto].
    destruct (Hwrite dest (default (Options.Args opt))) as [d ->]. eauto. }
  specialize (Hcheck eq_refl).
  assert (Hdest : ∃ d, (if Options.Usage opt =? SET then Ok (<[path:=x]> dest)
                        else match WriteDeep dest path x with
                             | Some dest' => Ok dest'
                             | None => Panic accessor_error
                             end) = Ok d).
  { destruct (_ =? SET); [eauto|]. destruct (Hwrite dest x) as [d ->]. eauto. }
  destruct Hdest as [d ->]. cbn [mbind result_bind].
  destruct (checkType_total validator x errors Hcheck) as (ok & e & ->).
  cbn [mbind result_bind]. destruct ok; cbn [negb]; [|eauto].
  destruct (checkValue_total validator x e Hcheck) as (ok & e' & ->).
  cbn [mbind result_bind]. destruct ok; cbn [negb]; [|eauto].
  destruct (checkRights_total validator (Options.Usage opt) (Options.UserRights opt)
              e' Husage) as (ok & e'' & ->).
  cbn [mbind result_bind]. eauto.
Qed.

Lemma range_total (_map : gmap string value) (opt : Options.t)
    (validators : list (string * Validator.t)) (st : gmap string value * errors_t) :
  Options.Usage opt = INIT ∨ Options.Usage opt = GET ∨ Options.Usage opt = SET ->
  (∀ path validator, (path, validator) ∈ validators ->
     ∃ x, ReadDeep _map path = Some x ∧ (is_absent x = false -> checkable validator x)) ->
  (∀ path validator d y, (path, validator) ∈ validators -> is_Some (WriteDeep d path y)) ->
  ∃ st', range _map opt validators st = Ok st'.
Proof.
  intros Husage. revert st.
  induction validators as [|[path validator] rest IH]; intros st Hread Hwrite.
  - exists st. reflexivity.
  - step_range. destruct st as [dest errors].
    destruct (Hread path validator) as (x & Hx & Hcheck); [left|].
    destruct (visit_total _map opt path validator dest errors x Husage Hx Hcheck)
      as (d & e & ->).
    { intros d y. apply (Hwrite path validator). left. }
    cbn [mbind result_bind]. apply IH.
    + intros p v Hin. apply Hread. right. exact Hin.
    + intros p v d' y Hin. apply (Hwrite p v). right. exact Hin.
Qed.

(** A pattern that does not compile makes the value check panic, *)
Lemma checkValue_bad_pattern (validator : Validator.t) (s : string)
    (errors : errors_t) :
  Validator.Regexp validator ≠ "" ->
  regexp_Compile (Validator.Regexp validator) = None ->
  checkValue validator (VString s) errors = Panic regexp_error.
Proof.
  intros Hpattern Hcompile. open_checkValue. unfold Validator.ExecRegexp.
  rewrite Hcompile. apply String.eqb_neq in Hpattern. rewrite Hpattern. reflexivity.
Qed.

(** and an error of the accessor makes the turn of the loop panic. *)
Lemma visit_accessor_error (_map : gmap string value) (opt : Options.t)
    (path : string) (validator : Validator.t) (st : gmap string value * errors_t) :
  ReadDeep _map path = None ->
  visit _map opt (path, validator) st = Panic accessor_error.
Proof. intros Hread. open_visit. destruct st. rewrite Hread. reflexivity. Qed.

End Properties.

(** * The scenarios, run on the host *)

Module Scenario.

Definition as_user (usage : Z) : Options.t := Options.mk usage USER VNil.

(** Scenario A: a required field is missing under INIT. *)
Example required_name :
  Host.Validate [("name", Host.name)] ∅ (as_user INIT)
  = Ok (∅, [required_missing "name"]).
Proof. vm_compute. reflexivity. Qed.

(** Scenario C: an empty sequence is absent. *)
Example empty_tags :
  Host.Validate [("tags", Host.tags)] {["tags" := VSlice []]} (as_user INIT)
  = Ok (∅, []).
Proof. vm_compute. reflexivity. Qed.

(** Scenario D: an identifier string under SET, by an owner. *)
Example owner_set :
  Host.Validate [("owner", Host.owner)] {["owner" := VString Host.identifier]}
    (Options.mk SET OWNER VNil)
  = Ok ({["owner" := VString Host.identifier]}, []).
Proof. vm_compute. reflexivity. Qed.

(** The two ends of the boundaries of [Host.age] are within. *)
Example age_ends :
  Host.checkValue Host.age (VNumber "0") [] = Ok (true, [])
  ∧ Host.checkValue Host.age (VNumber "120") [] = Ok (true, [])
  ∧ Host.checkValue Host.age (VNumber "120.000001") []
    = Ok (false, [out_of_boundaries Host.age "120.000001"])
  ∧ Host.checkValue Host.age (VNumber "-0.000001") []
    = Ok (false, [out_of_boundaries Host.age "-0.000001"]).
Proof. repeat split; vm_compute; reflexivity. Qed.

End Scenario.



(** ** The theorems at concrete inputs *)

Lemma checkRights_order_monotone_witness :
  checkRights Host.owner GET ADMIN [] = Ok (true, []).
Proof.
  apply (proj2 (proj2 (proj2 (proj2
           (checkRights_order_monotone Host.owner GET USER USER ADMIN [] eq_refl))))).
  - unfold USER, ADMIN. lia.
  - reflexivity.
Defined.

Lemma checkType_identifier_string_witness :
  checkType Host.owner (VString Host.identifier) [] = Ok (true, []).
Proof.
  apply (proj1 (checkType_identifier_string Host.owner Host.identifier [] eq_refl));
    reflexivity.
Defined.

Lemma checkValue_boundaries_inclusive_witness :
  Host.checkValue Host.age (VNumber "120") [] = Ok (true, [])
  ∧ Host.checkValue Host.age (VNumber "121") []
    = Ok (false, [out_of_boundaries Host.age "121"]).
Proof.
  pose proof (checkValue_boundaries_inclusive Host.regexp_Compile Host.Float64
                Host.age "120" []) as (_ & _ & Hin & _ & _).
  pose proof (checkValue_boundaries_inclusive Host.regexp_Compile Host.Float64
                Host.age "121" []) as (_ & _ & _ & _ & Hout).
  split.
  - apply (Hin eq_refl). split; [left|right]; vm_compute; reflexivity.
  - apply Hout. right. vm_compute. reflexivity.
Defined.

Lemma checkValue_boundaries_never_set_witness :
  Host.checkValue Host.owner (VNumber "42") []
  = Ok (false, [out_of_boundaries Host.owner "42"]).
Proof.
  apply (proj2 (checkValue_boundaries_never_set Host.regexp_Compile Host.Float64
                  Host.owner "42" [] eq_refl)).
  intros s. vm_compute. discriminate.
Defined.





(** * Further properties of the checks *)

(** ** The order of [float64], continued *)

Lemma Fle_trans (x y z : float64) : Fle x y -> Fle y z -> Fle x z.
Proof.
  unfold Fle, Flt, Feq.
  destruct x as [sx|sx| |sx mx ex], y as [sy|sy| |sy my ey], z as [sz|sz| |sz mz ez];
    cbn [SFcompare];
    try (intros [?|?] [?|?]; discriminate);
    try (destruct sx, sy, sz; intros [?|?] [?|?];
         (discriminate || (now left) || (now right))).
  destruct sx, sy, sz;
    try (intros [?|?] [?|?]; (discriminate || (now left) || (now right))).
  all: change (Pos.compare_cont Eq mx my) with (Pos.compare mx my);
       change (Pos.compare_cont Eq my mz) with (Pos.compare my mz);
       change (Pos.compare_cont Eq mx mz) with (Pos.compare mx mz).
  all: destruct (Z.compare_spec ex ey), (Z.compare_spec ey ez), (Z.compare_spec ex ez);
       try lia; subst;
       destruct (Pos.compare_spec mx my), (Pos.compare_spec my mz),
         (Pos.compare_spec mx mz);
       try lia; cbn [CompOpp]; intros [?|?] [?|?];
       (discriminate || (now left) || (now right)).
Qed.

(** The values within the boundaries form an interval: whatever lies between
    two values that pass [CheckBoundaries] passes it too. *)
Theorem CheckBoundaries_convex (validator : Validator.t) (a b x : float64) :
  Validator.CheckBoundaries validator a = true ->
  Validator.CheckBoundaries validator b = true ->
  Fle a x -> Fle x b ->
  Validator.CheckBoundaries validator x = true.
Proof.
  rewrite !CheckBoundaries_Fle. intros [Ha _] [_ Hb] Hax Hxb. split.
  - exact (Fle_trans _ _ _ Ha Hax).
  - exact (Fle_trans _ _ _ Hxb Hb).
Qed.

(** Boundaries that are upside down (Max below Min) or not numbers let no
    value through, and no value that is not a number passes any boundaries. *)
Theorem CheckBoundaries_empty (validator : Validator.t) (x : float64) :
  Flt (Boundaries.Max (Validator.Boundaries validator))
      (Boundaries.Min (Validator.Boundaries validator))
  ∨ Boundaries.Min (Validator.Boundaries validator) = S754_nan
  ∨ Boundaries.Max (Validator.Boundaries validator) = S754_nan
  ∨ x = S754_nan ->
  Validator.CheckBoundaries validator x = false.
Proof.
  intros Hcase. apply not_true_is_false. rewrite CheckBoundaries_Fle.
  intros [Hlo Hhi]. destruct Hcase as [Hlt | [Hnan | [Hnan | Hnan]]].
  - exact (Flt_not_Fle _ _ Hlt (Fle_trans _ _ _ Hlo Hhi)).
  - exact (Fle_not_nan_l _ _ Hlo Hnan).
  - exact (Fle_not_nan_r _ _ Hhi Hnan).
  - exact (Fle_not_nan_l _ _ Hhi Hnan).
Qed.

(** ** The type check, case by case *)

Lemma substring_all (s : string) : String.substring 0 (String.length s) s = s.
Proof. induction s as [|c s IH]; [reflexivity|]. cbn. rewrite IH. reflexivity. Qed.

Lemma substring_none (s : string) : String.substring 0 0 s = "".
Proof. destruct s; reflexivity. Qed.

Lemma checkType_sequence_descriptor (validator : Validator.t) (T : string)
    (elements : list value) (errors : errors_t) :
  Validator.Type_ validator = "[]" +:+ T ->
  checkType validator (VSlice elements) errors
  = checkType_elements validator T elements errors.
Proof.
  intros Hty. unfold checkType. rewrite Hty.
  change ("[]" +:+ T) with (String "["%char (String "]"%char T)).
  cbn [String.length Nat.ltb Nat.leb String.substring Nat.sub].
  rewrite substring_none, Nat.sub_0_r, substring_all. reflexivity.
Qed.

Lemma checkType_elements_uniform (validator : Validator.t) (T : string)
    (elements : list value) (errors : errors_t) :
  T ≠ "bson.ObjectId" ->
  checkType_elements validator T elements errors = Ok (true, errors)
  <-> Forall (fun element => TypeOf element = Some T) elements.
Proof.
  intros HT. apply String.eqb_neq in HT.
  induction elements as [|element rest IH]; cbn [checkType_elements].
  - split; [constructor|reflexivity].
  - rewrite Forall_cons. destruct (TypeOf element) as [vtype|] eqn:Et.
    + destruct (String.eqb_spec vtype T) as [->|Hne]; cbn [negb].
      * rewrite IH. tauto.
      * rewrite HT. cbn [andb].
        assert (Hfalse : ∀ e : DataErrorPtr,
                  Ok (false, errors ++ [e]) = Ok (true, errors) <-> False)
          by (intros e; split; [discriminate|tauto]).
        destruct element; rewrite Hfalse; split; try tauto; intros [[= ?] _];
          contradiction.
    + split; [discriminate|]. intros [? _]. discriminate.
Qed.

Lemma checkType_elements_first_offender (validator : Validator.t) (T t : string)
    (before after_ : list value) (offender : value) (errors : errors_t) :
  T ≠ "bson.ObjectId" ->
  Forall (fun element => TypeOf element = Some T) before ->
  TypeOf offender = Some t ->
  t ≠ T ->
  checkType_elements validator T (before ++ offender :: after_) errors
  = Ok (false, errors ++ [type_mismatch validator ("[] contains " +:+ t)]).
Proof.
  intros HT Hbefore Ht Hne. apply String.eqb_neq in HT, Hne.
  induction Hbefore as [|element rest Helt _ IH]; cbn [app checkType_elements].
  - rewrite Ht, Hne, HT. cbn [negb andb]. destruct offender; reflexivity.
  - rewrite Helt, String.eqb_refl. exact IH.
Qed.

(** A sequence against a descriptor [[]T], [T] not the identifier type:
    the type check passes exactly when every element has the type [T], and
    otherwise the first element of another type is the one reported; the
    elements after it are not looked at. *)
Theorem checkType_slice_uniform (validator : Validator.t) (T : string)
    (elements : list value) (errors : errors_t) :
  Validator.Type_ validator = "[]" +:+ T ->
  T ≠ "bson.ObjectId" ->
  (checkType validator (VSlice elements) errors = Ok (true, errors)
   <-> Forall (fun element => TypeOf element = Some T) elements)
  ∧ (∀ before offender after_ t,
       elements = before ++ offender :: after_ ->
       Forall (fun element => TypeOf element = Some T) before ->
       TypeOf offender = Some t ->
       t ≠ T ->
       checkType validator (VSlice elements) errors
       = Ok (false, errors ++ [type_mismatch validator ("[] contains " +:+ t)])).
Proof.
  intros Hty HT. rewrite (checkType_sequence_descriptor _ _ _ _ Hty). split.
  - apply checkType_elements_uniform, HT.
  - intros before offender after_ t -> Hbefore Ht Hne.
    apply checkType_elements_first_offender; assumption.
Qed.


Lemma SplitAfter_bracket_cons (c : Ascii.ascii) (rest : string) :
  SplitAfter_bracket (String c rest)
  = if Ascii.eqb c "]"%char then String c EmptyString :: SplitAfter_bracket rest
    else match SplitAfter_bracket rest with
         | piece :: pieces => String c piece :: pieces
         | [] => [String c EmptyString]
         end.
Proof. reflexivity. Qed.

Lemma SplitAfter_bracket_one (T : string) :
  no_bracket T -> SplitAfter_bracket T = [T].
Proof.
  unfold no_bracket. induction T as [|c T IH]; [reflexivity|].
  cbn [String.list_ascii_of_string]. intros [Hc HT]%Forall_cons.
  apply Ascii.eqb_neq in Hc. rewrite SplitAfter_bracket_cons, Hc, (IH HT).
  reflexivity.
Qed.

Lemma append_cons (c : Ascii.ascii) (s t : string) :
  String c s +:+ t = String c (s +:+ t).
Proof. reflexivity. Qed.

Lemma append_empty (t : string) : "" +:+ t = t.
Proof. reflexivity. Qed.

Lemma SplitAfter_bracket_two (p T : string) :
  no_bracket p -> no_bracket T ->
  SplitAfter_bracket (p +:+ "]" +:+ T) = [p +:+ "]"; T].
Proof.
  unfold no_bracket at 1. intros Hp HT. induction p as [|c p IH].
  - rewrite !append_empty, append_cons, append_empty, SplitAfter_bracket_cons.
    rewrite (SplitAfter_bracket_one T HT). reflexivity.
  - cbn in Hp. apply Forall_cons in Hp as [Hc Hp]. apply Ascii.eqb_neq in Hc.
    rewrite !(append_cons c p), SplitAfter_bracket_cons, Hc, (IH Hp). reflexivity.
Qed.

Lemma checkType_entries_uniform (validator : Validator.t) (K T : string)
    (entries : list (string * value)) (errors : errors_t) :
  checkType_entries validator [K; T] entries errors = Ok (true, errors)
  <-> Forall (fun entry => (K = "map[bson.ObjectId]" -> IsObjectIdHex entry.1 = true)
                           ∧ TypeOf entry.2 = Some T) entries.
Proof.
  assert (Hfalse : ∀ e : DataErrorPtr,
            Ok (false, errors ++ [e]) = Ok (true, errors) <-> False)
    by (intros e; split; [discriminate|tauto]).
  induction entries as [|[key element] rest IH]; cbn [checkType_entries].
  - split; [constructor|reflexivity].
  - rewrite Forall_cons. cbn [lookup list_lookup fst snd].
    destruct (String.eqb_spec K "map[bson.ObjectId]") as [HK|HK];
      destruct (IsObjectIdHex key) eqn:Ekey; cbn [andb negb];
      try (rewrite Hfalse; split; [tauto|]; intros [[Hk _] _];
           specialize (Hk HK); discriminate).
    all: destruct (TypeOf element) as [vtype|];
      [|split; [discriminate|intros [[_ [=]] _]]].
    all: destruct (String.eqb_spec vtype T) as [->|Hne]; cbn [negb];
      [rewrite IH; tauto|].
    all: rewrite Hfalse; split; [tauto|]; intros [[_ [= ?]] _]; contradiction.
Qed.

(** A mapping against a descriptor [map[K]T]: the type check passes exactly
    when every value of the mapping has the type [T] and, for the key kind
    [bson.ObjectId], every key is an identifier string; whatever the order in
    which the entries are visited.  The empty mapping passes. *)
Theorem checkType_map_uniform (validator : Validator.t) (K T : string)
    (m : gmap string value) (errors : errors_t) :
  Validator.Type_ validator = "map[" +:+ K +:+ "]" +:+ T ->
  no_bracket K -> no_bracket T ->
  checkType validator (VMap m) errors = Ok (true, errors)
  <-> map_Forall (fun key element =>
                    (K = "bson.ObjectId" -> IsObjectIdHex key = true)
                    ∧ TypeOf element = Some T) m.
Proof.
  intros Hty HK HT. unfold checkType. rewrite Hty.
  change ("map[" +:+ K +:+ "]" +:+ T) with (("map[" +:+ K) +:+ "]" +:+ T).
  rewrite SplitAfter_bracket_two; [|repeat constructor; try discriminate; exact HK|exact HT].
  rewrite checkType_entries_uniform, map_Forall_to_list.
  apply Forall_proper; [|reflexivity]. intros [key element]. cbn [fst snd uncurry].
  assert (Hkind : ("map[" +:+ K) +:+ "]" = "map[bson.ObjectId]" <-> K = "bson.ObjectId").
  { split; [|intros ->; reflexivity].
    change (("map[" +:+ K) +:+ "]") with (String "m" (String "a" (String "p"
              (String "[" (K +:+ "]"))))).
    intros [= H]. change "bson.ObjectId]" with ("bson.ObjectId" +:+ "]") in H.
    revert H. generalize "bson.ObjectId". clear.
    induction K as [|c K IH]; intros [|c' s]; cbn; intros [= ]; subst; auto.
    - destruct s; discriminate.
    - destruct K; discriminate.
    - f_equal. apply IH. assumption. }
  rewrite Hkind. reflexivity.
Qed.

(** A value that is neither a sequence nor a mapping: nil passes any
    descriptor; any other value passes exactly when its type name is the
    descriptor or when it is an identifier string, and otherwise the check
    fails with the type name of the value. *)
Theorem checkType_scalar (validator : Validator.t) (x : value) (errors : errors_t) :
  is_scalar x = true ->
  (x = VNil -> checkType validator x errors = Ok (true, errors))
  ∧ (∀ t, TypeOf x = Some t ->
       (checkType validator x errors = Ok (true, errors)
        <-> t = Validator.Type_ validator
            ∨ ∃ s, x = VString s ∧ IsObjectIdHex s = true)
       ∧ (checkType validator x errors = Ok (true, errors)
          ∨ checkType validator x errors
            = Ok (false, errors ++ [type_mismatch validator t]))).
Proof.
  intros Hscalar. split; [intros ->; reflexivity|]. intros t Ht.
  assert (Hfalse : ∀ e : DataErrorPtr,
            Ok (false, errors ++ [e]) = Ok (true, errors) <-> False)
    by (intros e; split; [discriminate|tauto]).
  destruct x; try discriminate; cbn in Ht; injection Ht as <-; unfold checkType;
    cbn [TypeOf];
    match goal with
    | |- context [String.eqb ?a ?b] => destruct (String.eqb_spec a b) as [Heq|Hne]
    end; cbn [negb].
  all: try (split; [split; [intros _; left; exact Heq|reflexivity]|left; reflexivity]).
  - split; [|right; reflexivity]. rewrite Hfalse. split; [tauto|].
    intros [?|(s & [=] & _)]. contradiction.
  - destruct (IsObjectIdHex s) eqn:E.
    + split; [|left; reflexivity]. split; [eauto|reflexivity].
    + split; [|right; reflexivity]. rewrite Hfalse. split; [tauto|].
      intros [?|(s' & [= <-] & Hs')]; [contradiction|congruence].
  - split; [|right; reflexivity]. rewrite Hfalse. split; [tauto|].
    intros [?|(s & [=] & _)]. contradiction.
Qed.

(** A sequence against a descriptor that does not start with [[]]: the check
    fails with the type name of the sequence and never looks at the elements;
    a descriptor shorter than the two characters sliced off it makes the
    check panic. *)
Theorem checkType_slice_descriptor (validator : Validator.t)
    (elements : list value) (errors : errors_t) :
  ((String.length (Validator.Type_ validator) < 2)%nat ->
   checkType validator (VSlice elements) errors = Panic slice_bounds)
  ∧ ((2 ≤ String.length (Validator.Type_ validator))%nat ->
     String.prefix "[]" (Validator.Type_ validator) = false ->
     checkType validator (VSlice elements) errors
     = Ok (false, errors ++ [type_mismatch validator "[]interface {}"])).
Proof.
  unfold checkType. split.
  - intros Hlen. apply Nat.ltb_lt in Hlen. rewrite Hlen. reflexivity.
  - intros Hlen Hprefix.
    destruct (Nat.ltb_spec (String.length (Validator.Type_ validator)) 2); [lia|].
    cbv zeta.
    assert (Hne : (String.substring 0 2 (Validator.Type_ validator) =? "[]")%string = false).
    { destruct (Validator.Type_ validator) as [|a [|b T]]; cbn in Hlen; try lia.
      cbn [String.substring]. rewrite substring_none.
      cbn in Hprefix |- *.
      destruct (Ascii.ascii_dec a "[") as [->|Ha]; cbn in Hprefix |- *.
      - destruct (Ascii.ascii_dec b "]") as [->|Hb]; cbn in Hprefix |- *;
          [destruct T; discriminate|].
        apply Ascii.eqb_neq in Hb. rewrite Hb. reflexivity.
      - apply Ascii.eqb_neq in Ha. rewrite Ha. reflexivity. }
    rewrite Hne. reflexivity.
Qed.

(** ** What the checks and the pass add to the errors *)

Section Outcomes.

Variable ReadDeep : gmap string value -> string -> option value.
Variable WriteDeep : gmap string value -> string -> value -> option (gmap string value).
Variable regexp_Compile : string -> option (string -> bool).
Variable Float64 : string -> float64.

Ltac open_checkValue := unfold checkValue.
Ltac open_visit := unfold visit.
Ltac open_Validate := unfold Validate.
Ltac step_range := cbn [range].

#[local] Abbreviation checkValue := (checkValue regexp_Compile Float64).
#[local] Abbreviation visit := (visit ReadDeep WriteDeep regexp_Compile Float64).
#[local] Abbreviation range := (range ReadDeep WriteDeep regexp_Compile Float64).
#[local] Abbreviation Validate := (Validate ReadDeep WriteDeep regexp_Compile Float64).

Lemma checkType_elements_outcome (validator : Validator.t) (_type : string)
    (elements : list value) (errors errors' : errors_t) (ok : bool) :
  checkType_elements validator _type elements errors = Ok (ok, errors') ->
  if ok then errors' = errors
  else ∃ what, errors' = errors ++ [type_mismatch validator what].
Proof.
  induction elements as [|element rest IH]; cbn [checkType_elements].
  - intros [= <- <-]. reflexivity.
  - destruct (TypeOf element) as [vtype|]; [|discriminate].
    destruct (negb _); [|exact IH].
    destruct element; try (intros [= <- <-]; eauto).
    destruct (_ && _); intros [= <- <-]; eauto.
Qed.

Lemma checkType_entries_outcome (validator : Validator.t) (parts : list string)
    (entries : list (string * value)) (errors errors' : errors_t) (ok : bool) :
  checkType_entries validator parts entries errors = Ok (ok, errors') ->
  if ok then errors' = errors
  else ∃ what, errors' = errors ++ [type_mismatch validator what].
Proof.
  induction entries as [|[key element] rest IH]; cbn [checkType_entries].
  - intros [= <- <-]. reflexivity.
  - destruct (parts !! 0%nat) as [part0|]; [|discriminate].
    destruct (_ && _); [intros [= <- <-]; eauto|].
    destruct (TypeOf element) as [vtype|]; [|discriminate].
    destruct (parts !! 1%nat) as [part1|]; [|discriminate].
    destruct (negb _); [intros [= <- <-]; eauto|exact IH].
Qed.

Lemma checkType_outcome (validator : Validator.t) (x : value)
    (errors errors' : errors_t) (ok : bool) :
  checkType validator x errors = Ok (ok, errors') ->
  if ok then errors' = errors
  else ∃ what, errors' = errors ++ [type_mismatch validator what].
Proof.
  unfold checkType. destruct x; cbn [TypeOf];
    try (destruct (negb _); intros [= <- <-]; eauto; fail);
    try (intros [= <- <-]; reflexivity).
  - destruct (negb _); [|intros [= <- <-]; reflexivity].
    destruct (IsObjectIdHex s); intros [= <- <-]; eauto.
  - destruct (_ <? _)%nat; [discriminate|]. cbv zeta.
    destruct (negb _); [intros [= <- <-]; eauto|].
    apply checkType_elements_outcome.
  - apply checkType_entries_outcome.
Qed.

Lemma customTest_outcome (validator : Validator.t) (x : value)
    (errors errors' : errors_t) (ok : bool) :
  customTest validator x errors = (ok, errors') ->
  if ok then errors' = errors
  else ∃ e, errors' = errors ++ [e] ∧ Validator.CustomTest validator ≠ None.
Proof.
  unfold customTest. destruct (Validator.CustomTest validator) as [test|].
  - destruct (test x) as [[] err]; intros [= <- <-]; eauto.
  - intros [= <- <-]. reflexivity.
Qed.

Lemma checkValue_outcome (validator : Validator.t) (x : value)
    (errors errors' : errors_t) (ok : bool) :
  checkValue validator x errors = Ok (ok, errors') ->
  if ok then errors' = errors
  else ∃ e, errors' = errors ++ [e]
            ∧ (Validator.CustomTest validator = None ->
               ∃ reason v, e = new_error "Validation error" reason
                                 (Validator.Field validator) v).
Proof.
  assert (Hcustom : customTest validator x errors = (ok, errors') ->
            if ok then errors' = errors
            else ∃ e, errors' = errors ++ [e]
                      ∧ (Validator.CustomTest validator = None ->
                         ∃ reason v, e = new_error "Validation error" reason
                                           (Validator.Field validator) v)).
  { intros H. apply customTest_outcome in H. destruct ok; [exact H|].
    destruct H as (e & -> & Hsome). exists e. split; [reflexivity|]. tauto. }
  open_checkValue. destruct x; try (intros [= H]; exact (Hcustom H)).
  - destruct (negb _); [|intros [= H]; exact (Hcustom H)].
    destruct (Validator.ExecRegexp _ _ _) as [[]|]; cbn [negb];
      [intros [= H]; exact (Hcustom H)| |discriminate].
    intros [= <- <-]. eauto.
  - cbv zeta. destruct (negb _); [|intros [= H]; exact (Hcustom H)].
    intros [= <- <-]. eauto.
Qed.

Lemma checkRights_outcome (validator : Validator.t) (usage userRights : Z)
    (errors errors' : errors_t) (ok : bool) :
  checkRights validator usage userRights errors = Ok (ok, errors') ->
  if ok then errors' = errors
  else errors' = errors ++ [insufficient_rights validator].
Proof.
  unfold checkRights.
  destruct (Validator.Rights_at validator usage) as [required|];
    cbn [mbind result_bind]; [|discriminate].
  destruct (negb _); intros [= <- <-]; reflexivity.
Qed.

(** Each of the three checks either returns true and leaves the errors as
    they were, or returns false and adds exactly one error at the end: a
    check never adds an error and passes, never fails silently, and never
    touches the errors already there. *)
Theorem checks_add_one_error_on_failure (validator : Validator.t) (x : value)
    (usage userRights : Z) (errors errors' : errors_t) (ok : bool) :
  checkType validator x errors = Ok (ok, errors')
  ∨ checkValue validator x errors = Ok (ok, errors')
  ∨ checkRights validator usage userRights errors = Ok (ok, errors') ->
  if ok then errors' = errors else ∃ e, errors' = errors ++ [e].
Proof.
  intros [H | [H | H]].
  - apply checkType_outcome in H. destruct ok; [exact H|].
    destruct H as [what ->]. eauto.
  - apply checkValue_outcome in H. destruct ok; [exact H|].
    destruct H as (e & -> & _). eauto.
  - apply checkRights_outcome in H. destruct ok; [exact H|]. eauto.
Qed.


Lemma visit_outcome (_map : gmap string value) (opt : Options.t)
    (path : string) (validator : Validator.t) (dest dest' : gmap string value)
    (errors errors' : errors_t) :
  visit _map opt (path, validator) (dest, errors) = Ok (dest', errors') ->
  errors' = errors
  ∨ ∃ e, errors' = errors ++ [e]
         ∧ (Validator.CustomTest validator = None ->
            ∃ reason field v,
              e = new_error "Validation error" reason field v
              ∧ (field = path ∨ field = Validator.Field validator)).
Proof.
  open_visit. destruct (ReadDeep _map path) as [x|]; [|discriminate].
  destruct (is_absent x).
  { destruct (_ =? INIT); [|intros [= _ <-]; auto].
    destruct (Validator.IsRequired validator).
    - intros [= _ <-]. right. eexists. split; [reflexivity|]. intros _.
      do 3 eexists. split; [reflexivity|]. auto.
    - destruct (Validator.Default validator) as [default|];
        [|intros [= _ <-]; auto].
      destruct (WriteDeep _ _ _); [intros [= _ <-]; auto|discriminate]. }
  destruct (if Options.Usage opt =? SET then _ else _) as [d|];
    cbn [mbind result_bind]; [|discriminate].
  destruct (checkType validator x errors) as [[ok e]|] eqn:Etype;
    cbn [mbind result_bind]; [|discriminate].
  apply checkType_outcome in Etype. destruct ok; cbn [negb].
  2: { intros [= _ <-]. destruct Etype as [what ->]. right. eexists.
       split; [reflexivity|]. intros _. do 3 eexists. split; [reflexivity|]. auto. }
  subst e. destruct (checkValue validator x errors) as [[ok e]|] eqn:Evalue;
    cbn [mbind result_bind]; [|discriminate].
  apply checkValue_outcome in Evalue. destruct ok; cbn [negb].
  2: { intros [= _ <-]. destruct Evalue as (e' & -> & Hbuilt). right. exists e'.
       split; [reflexivity|]. intros Hnone.
       destruct (Hbuilt Hnone) as (reason & v & ->). do 3 eexists.
       split; [reflexivity|]. auto. }
  subst e. destruct (checkRights validator _ _ errors) as [[ok e]|] eqn:Erights;
    cbn [mbind result_bind]; [|discriminate].
  apply checkRights_outcome in Erights. intros [= _ <-]. destruct ok; [auto|].
  subst e. right. eexists. split; [reflexivity|]. intros _. do 3 eexists.
  split; [reflexivity|]. auto.
Qed.

Lemma range_outcome (_map : gmap string value) (opt : Options.t)
    (validators : list (string * Validator.t)) (dest dest' : gmap string value)
    (errors errors' : errors_t) :
  range _map opt validators (dest, errors) = Ok (dest', errors') ->
  ∃ added, errors' = errors ++ added
    ∧ (length added ≤ length validators)%nat
    ∧ ((∀ path validator, (path, validator) ∈ validators ->
          Validator.CustomTest validator = None) ->
       Forall (fun e => ∃ reason field v path validator,
                 e = new_error "Validation error" reason field v
                 ∧ (path, validator) ∈ validators
                 ∧ (field = path ∨ field = Validator.Field validator)) added).
Proof.
  revert dest errors.
  induction validators as [|[path validator] rest IH]; intros dest errors; step_range.
  - intros [= <- <-]. exists []. rewrite app_nil_r. repeat split; auto.
  - destruct (visit _map opt (path, validator) (dest, errors)) as [[d e]|] eqn:E;
      cbn [mbind result_bind]; [|discriminate].
    intros Hrest. apply IH in Hrest as (added & -> & Hlen & Hbuilt).
    assert (Hweaken : (∀ p v, (p, v) ∈ (path, validator) :: rest ->
                         Validator.CustomTest v = None) ->
              Forall (fun e => ∃ reason field v p' v',
                        e = new_error "Validation error" reason field v
                        ∧ (p', v') ∈ (path, validator) :: rest
                        ∧ (field = p' ∨ field = Validator.Field v')) added).
    { intros Hnone. eapply Forall_impl; [apply Hbuilt|].
      - intros p v Hin. apply (Hnone p). right. exact Hin.
      - intros e' (reason & field & v & p' & v' & -> & Hin & Hfield).
        exists reason, field, v, p', v'. repeat split; auto. right. exact Hin. }
    apply visit_outcome in E as [-> | (e1 & -> & Hone)].
    + exists added. split; [reflexivity|]. split; [cbn; lia|exact Hweaken].
    + exists (e1 :: added). rewrite <- app_assoc. split; [reflexivity|].
      split; [cbn; lia|]. intros Hnone. apply Forall_cons. split; [|exact (Hweaken Hnone)].
      destruct Hone as (reason & field & v & -> & Hfield); [apply (Hnone path); left|].
      exists reason, field, v, path, validator. repeat split; auto. left.
Qed.

(** [Validate] returns at most one error per validator: the checks of a
    field stop at the first that fails. *)
Theorem Validate_one_error_per_field (validators : list (string * Validator.t))
    (_map : gmap string value) (opt : Options.t) (dest : gmap string value)
    (errors : errors_t) :
  Validate validators _map opt = Ok (dest, errors) ->
  (length errors ≤ length validators)%nat.
Proof.
  intros Hrun. apply range_outcome in Hrun as (added & -> & Hlen & _). exact Hlen.
Qed.

(** When no validator has a custom test, every error [Validate] returns is
    one it built itself: a pointer that is not nil, to an error of type
    "Validation error" whose field is the path or the [Field] of a validator
    of the schema. *)
Theorem Validate_errors_built_in (validators : list (string * Validator.t))
    (_map : gmap string value) (opt : Options.t) (dest : gmap string value)
    (errors : errors_t) :
  (∀ path validator, (path, validator) ∈ validators ->
     Validator.CustomTest validator = None) ->
  Validate validators _map opt = Ok (dest, errors) ->
  Forall (fun e => ∃ reason field v path validator,
            e = new_error "Validation error" reason field v
            ∧ (path, validator) ∈ validators
            ∧ (field = path ∨ field = Validator.Field validator)) errors.
Proof.
  intros Hnone Hrun. apply range_outcome in Hrun as (added & -> & _ & Hbuilt).
  exact (Hbuilt Hnone).
Qed.

End Outcomes.

(** ** The pass as a whole *)

Section Pass.

Variable ReadDeep : gmap string value -> string -> option value.
Variable WriteDeep : gmap string value -> string -> value -> option (gmap string value).
Variable regexp_Compile : string -> option (string -> bool).
Variable Float64 : string -> float64.

Ltac open_visit := unfold visit.
Ltac open_Validate := unfold Validate.
Ltac step_range := cbn [range].

#[local] Abbreviation checkValue := (checkValue regexp_Compile Float64).
#[local] Abbreviation visit := (visit ReadDeep WriteDeep regexp_Compile Float64).
#[local] Abbreviation range := (range ReadDeep WriteDeep regexp_Compile Float64).
#[local] Abbreviation Validate := (Validate ReadDeep WriteDeep regexp_Compile Float64).

(** The destination of the copy of a present value. *)
Lemma visit_present (_map : gmap string value) (opt : Options.t) (path : string)
    (validator : Validator.t) (dest : gmap string value) (errors : errors_t)
    (x : value) :
  ReadDeep _map path = Some x ->
  is_absent x = false ->
  visit _map opt (path, validator) (dest, errors)
  = dest' ← (if Options.Usage opt =? SET then Ok (<[path := x]> dest)
             else match WriteDeep dest path x with
                  | None => Panic accessor_error
                  | Some dest' => Ok dest'
                  end);
    '(ok, errors) ← checkType validator x errors;
    if negb ok then Ok (dest', errors) else
    '(ok, errors) ← checkValue validator x errors;
    if negb ok then Ok (dest', errors) else
    '(_, errors) ← checkRights validator (Options.Usage opt)
                     (Options.UserRights opt) errors;
    Ok (dest', errors).
Proof. intros Hread Hpresent. open_visit. rewrite Hread, Hpresent. reflexivity. Qed.

(** The first check that fails is the last that runs: when the type check of
    a present field fails, its error is the field's only error, whatever the
    pattern, the custom test and the rights of the validator, which are not
    consulted; when the type check passes and the value check fails, the
    rights are not consulted. *)
Theorem visit_first_failure (_map : gmap string value) (opt : Options.t)
    (path : string) (validator : Validator.t) (dest dest' : gmap string value)
    (errors errors' : errors_t) (x : value) :
  ReadDeep _map path = Some x ->
  is_absent x = false ->
  (if Options.Usage opt =? SET then Some (<[path := x]> dest)
   else WriteDeep dest path x) = Some dest' ->
  (checkType validator x errors = Ok (false, errors') ->
   visit _map opt (path, validator) (dest, errors) = Ok (dest', errors'))
  ∧ (checkType validator x errors = Ok (true, errors) ->
     checkValue validator x errors = Ok (false, errors') ->
     visit _map opt (path, validator) (dest, errors) = Ok (dest', errors'))
  ∧ (checkType validator x errors = Ok (true, errors) ->
     checkValue validator x errors = Ok (true, errors) ->
     visit _map opt (path, validator) (dest, errors)
     = '(_, errors) ← checkRights validator (Options.Usage opt)
                        (Options.UserRights opt) errors;
       Ok (dest', errors)).
Proof.
  intros Hread Hpresent Hwrite. rewrite (visit_present _ _ _ _ _ _ x Hread Hpresent).
  assert (Hdest : (if Options.Usage opt =? SET then Ok (<[path := x]> dest)
                   else match WriteDeep dest path x with
                        | None => Panic accessor_error
                        | Some d => Ok d
                        end) = Ok dest').
  { destruct (_ =? SET); [injection Hwrite as <-; reflexivity|].
    rewrite Hwrite. reflexivity. }
  rewrite Hdest. cbn [mbind result_bind]. split; [|split].
  - intros ->. reflexivity.
  - intros -> . cbn [mbind result_bind negb]. intros ->. reflexivity.
  - intros ->. cbn [mbind result_bind negb]. intros ->. reflexivity.
Qed.

(** *** Under SET *)

(** Under SET the output a turn of the loop starts from only shows in the
    output it returns. *)
Lemma visit_SET_dest (_map : gmap string value) (opt : Options.t)
    (path : string) (validator : Validator.t) (dest : gmap string value)
    (errors : errors_t) (x : value) :
  Options.Usage opt = SET ->
  ReadDeep _map path = Some x ->
  visit _map opt (path, validator) (dest, errors)
  = '(_, errors') ← visit _map opt (path, validator) (∅, errors);
    Ok ((if is_absent x then dest else <[path := x]> dest), errors').
Proof.
  intros Husage Hread. open_visit. rewrite Husage, Hread.
  change (SET =? INIT) with false. change (SET =? SET) with true.
  destruct (is_absent x); [reflexivity|]. cbn [mbind result_bind].
  destruct (checkType validator x errors) as [[[] e1]|];
    cbn [mbind result_bind negb]; try reflexivity.
  destruct (checkValue validator x e1) as [[[] e2]|];
    cbn [mbind result_bind negb]; try reflexivity.
  destruct (checkRights validator SET (Options.UserRights opt) e2) as [[ok e3]|];
    reflexivity.
Qed.

(** Under SET a turn of the loop does the same to every state: it adds the
    same errors and puts the same entry into the output. *)
Lemma visit_SET_uniform (_map : gmap string value) (opt : Options.t)
    (path : string) (validator : Validator.t) (dest dest' : gmap string value)
    (errors errors' : errors_t) :
  Options.Usage opt = SET ->
  visit _map opt (path, validator) (dest, errors) = Ok (dest', errors') ->
  ∃ x added,
    ReadDeep _map path = Some x
    ∧ dest' = (if is_absent x then dest else <[path := x]> dest)
    ∧ errors' = errors ++ added
    ∧ ∀ d e, visit _map opt (path, validator) (d, e)
             = Ok ((if is_absent x then d else <[path := x]> d), e ++ added).
Proof.
  intros Husage Hrun.
  destruct (ReadDeep _map path) as [x|] eqn:Hread;
    [|revert Hrun; open_visit; rewrite Hread; discriminate].
  assert (Hany : ∀ d e, visit _map opt (path, validator) (d, e)
                 = '(_, added) ← visit _map opt (path, validator) (∅, []);
                   Ok ((if is_absent x then d else <[path := x]> d), e ++ added)).
  { intros d e. rewrite (visit_SET_dest _ _ _ _ d e x Husage Hread).
    pose proof (visit_after ReadDeep WriteDeep regexp_Compile Float64 _map opt
                  (path, validator) ∅ e []) as F.
    rewrite app_nil_r in F. rewrite F.
    destruct (visit _map opt (path, validator) (∅, [])) as [[d0 added]|]; reflexivity. }
  rewrite Hany in Hrun.
  destruct (visit _map opt (path, validator) (∅, [])) as [[d0 added]|];
    cbn [mbind result_bind] in Hrun; [|discriminate].
  injection Hrun as <- <-. exists x, added.
  split; [reflexivity|]. split; [reflexivity|]. split; [reflexivity|].
  intros d e. rewrite Hany. reflexivity.
Qed.

Lemma range_errors_perm (_map : gmap string value) (opt : Options.t)
    (validators : list (string * Validator.t)) (dest dest' : gmap string value)
    (e1 e2 e1' : errors_t) :
  e1 ≡ₚ e2 ->
  range _map opt validators (dest, e1) = Ok (dest', e1') ->
  ∃ e2', range _map opt validators (dest, e2) = Ok (dest', e2') ∧ e1' ≡ₚ e2'.
Proof.
  intros Hperm.
  pose proof (range_after ReadDeep WriteDeep regexp_Compile Float64 _map opt
                validators dest e1 []) as F1.
  pose proof (range_after ReadDeep WriteDeep regexp_Compile Float64 _map opt
                validators dest e2 []) as F2.
  rewrite app_nil_r in F1, F2. rewrite F1, F2.
  destruct (range _map opt validators (dest, [])) as [[d added]|];
    cbn [after mbind result_bind]; [|discriminate].
  intros [= <- <-]. exists (e2 ++ added). split; [reflexivity|].
  rewrite Hperm. reflexivity.
Qed.

Lemma range_SET_perm (_map : gmap string value) (opt : Options.t)
    (vs vs' : list (string * Validator.t)) :
  Options.Usage opt = SET ->
  vs ≡ₚ vs' ->
  NoDup vs.*1 ->
  ∀ dest errors dest' errors',
    range _map opt vs (dest, errors) = Ok (dest', errors') ->
    ∃ errors'', range _map opt vs' (dest, errors) = Ok (dest', errors'')
                ∧ errors' ≡ₚ errors''.
Proof.
  intros Husage Hperm.
  induction Hperm as [|[path validator] l l' Hperm IH
                      |[p2 v2] [p1 v1] l|l l' l'' Hperm1 IH1 Hperm2 IH2];
    intros Hnodup dest errors dest' errors'.
  - intros H. exists errors'. split; [exact H|reflexivity].
  - step_range. cbn in Hnodup. apply NoDup_cons in Hnodup as [_ Hnodup].
    destruct (visit _map opt (path, validator) (dest, errors)) as [[d e]|];
      cbn [mbind result_bind]; [|discriminate].
    apply IH, Hnodup.
  - step_range. cbn in Hnodup. apply NoDup_cons in Hnodup as [Hne _].
    apply not_elem_of_cons in Hne as [Hne _].
    destruct (visit _map opt (p1, v1) (dest, errors)) as [[d1 e1]|] eqn:E1;
      cbn [mbind result_bind]; [|discriminate].
    destruct (visit _map opt (p2, v2) (d1, e1)) as [[d2 e2]|] eqn:E2;
      cbn [mbind result_bind]; [|discriminate].
    destruct (visit_SET_uniform _ _ _ _ _ _ _ _ Husage E1)
      as (x1 & a1 & _ & -> & -> & Hany1).
    destruct (visit_SET_uniform _ _ _ _ _ _ _ _ Husage E2)
      as (x2 & a2 & _ & -> & -> & Hany2).
    rewrite Hany2. cbn [mbind result_bind]. rewrite Hany1. cbn [mbind result_bind].
    assert (Hdest : (if is_absent x1 then if is_absent x2 then dest else <[p2:=x2]> dest
                     else <[p1:=x1]> (if is_absent x2 then dest else <[p2:=x2]> dest))
                    = (if is_absent x2 then if is_absent x1 then dest else <[p1:=x1]> dest
                       else <[p2:=x2]> (if is_absent x1 then dest else <[p1:=x1]> dest))).
    { destruct (is_absent x1), (is_absent x2); try reflexivity.
      apply insert_insert_ne. congruence. }
    rewrite Hdest. apply range_errors_perm.
    rewrite <- !app_assoc. apply Permutation_app_head, Permutation_app_comm.
  - intros Hrun. destruct (IH1 Hnodup _ _ _ _ Hrun) as (e' & Hrun' & Hp1).
    assert (Hnodup' : NoDup l'.*1) by (rewrite <- Hperm1; exact Hnodup).
    destruct (IH2 Hnodup' _ _ _ _ Hrun') as (e'' & Hrun'' & Hp2).
    exists e''. split; [exact Hrun''|]. rewrite Hp1. exact Hp2.
Qed.
(** Under SET the output document does not depend on the order in which
    [range] visits the validators, and the errors are the same up to their
    order: if the pass returns for one order, it returns for every other. *)
Theorem Validate_SET_order (vs vs' : list (string * Validator.t))
    (_map : gmap string value) (opt : Options.t) (dest : gmap string value)
    (errors : errors_t) :
  Options.Usage opt = SET ->
  NoDup vs.*1 ->
  vs ≡ₚ vs' ->
  Validate vs _map opt = Ok (dest, errors) ->
  ∃ errors', Validate vs' _map opt = Ok (dest, errors') ∧ errors ≡ₚ errors'.
Proof.
  intros Husage Hnodup Hperm Hrun.
  exact (range_SET_perm _map opt vs vs' Husage Hperm Hnodup _ _ _ _ Hrun).
Qed.

Lemma range_SET_lookup (_map : gmap string value) (opt : Options.t)
    (vs : list (string * Validator.t)) (dest dest' : gmap string value)
    (errors errors' : errors_t) (key : string) :
  Options.Usage opt = SET ->
  NoDup vs.*1 ->
  range _map opt vs (dest, errors) = Ok (dest', errors') ->
  dest' !! key
  = match list_find (fun entry => entry.1 = key) vs with
    | Some _ => match ReadDeep _map key with
                | Some x => if is_absent x then dest !! key else Some x
                | None => None
                end
    | None => dest !! key
    end.
Proof.
  intros Husage. revert dest errors.
  induction vs as [|[path validator] rest IH]; intros dest errors Hnodup; step_range.
  - intros [= <- _]. reflexivity.
  - cbn in Hnodup. apply NoDup_cons in Hnodup as [Hnotin Hnodup].
    destruct (visit _map opt (path, validator) (dest, errors)) as [[d e]|] eqn:E;
      cbn [mbind result_bind]; [|discriminate].
    destruct (visit_SET_uniform _ _ _ _ _ _ _ _ Husage E)
      as (x & added & Hread & -> & -> & _).
    intros Hrest. rewrite (IH _ _ Hnodup Hrest). cbn [list_find fst].
    destruct (decide (path = key)) as [->|Hne].
    + assert (Hnone : list_find (fun entry : string * Validator.t => entry.1 = key) rest
                      = None).
      { apply list_find_None, Forall_forall. intros [p v] Hin Heq. cbn in Heq. subst p.
        apply Hnotin, list_elem_of_fmap. exists (key, v). auto. }
      rewrite Hnone, Hread. cbn [fmap option_fmap option_map].
      destruct (is_absent x); [reflexivity|apply lookup_insert_eq].
    + destruct (list_find _ rest) as [[i entry]|]; cbn [fmap option_fmap option_map].
      * destruct (ReadDeep _map key) as [y|]; [|reflexivity].
        destruct (is_absent y); [|reflexivity].
        destruct (is_absent x); [reflexivity|apply lookup_insert_ne, Hne].
      * destruct (is_absent x); [reflexivity|apply lookup_insert_ne, Hne].
Qed.

(** Under SET the output document has exactly the present fields of the
    schema, each under its full path as a flat key: a key is in the output
    with a value exactly when it is the path of a validator and the value is
    read for it from the document and is not absent.  A field of the document
    that no validator names is not in the output. *)
Theorem Validate_SET_output (vs : list (string * Validator.t))
    (_map : gmap string value) (opt : Options.t) (dest : gmap string value)
    (errors : errors_t) :
  Options.Usage opt = SET ->
  NoDup vs.*1 ->
  Validate vs _map opt = Ok (dest, errors) ->
  ∀ key x,
    dest !! key = Some x
    <-> key ∈ vs.*1 ∧ ReadDeep _map key = Some x ∧ is_absent x = false.
Proof.
  intros Husage Hnodup Hrun key x.
  rewrite (range_SET_lookup _ _ _ _ _ _ _ key Husage Hnodup Hrun), lookup_empty.
  destruct (list_find _ vs) as [[i [p v]]|] eqn:Efind.
  - apply list_find_Some in Efind as (Hi & Hp & _). cbn in Hp. subst p.
    assert (Hin : key ∈ vs.*1).
    { apply list_elem_of_fmap. exists (key, v). split; [reflexivity|].
      apply list_elem_of_lookup. eauto. }
    destruct (ReadDeep _map key) as [y|]; [|split; [discriminate|intros (_ & [=] & _)]].
    destruct (is_absent y) eqn:Ey.
    + split; [discriminate|]. intros (_ & [= ->] & Hx). congruence.
    + split; [intros [= ->]; auto|]. intros (_ & [= ->] & _). reflexivity.
  - split; [discriminate|]. intros (Hin & _). exfalso.
    apply list_elem_of_fmap in Hin as ([p v] & -> & Hin).
    apply list_find_None in Efind. rewrite Forall_forall in Efind.
    exact (Efind _ Hin eq_refl).
Qed.

(** *** When every field is absent *)

Lemma range_all_absent (_map : gmap string value) (opt : Options.t)
    (vs : list (string * Validator.t)) (dest : gmap string value)
    (errors : errors_t) :
  (∀ path validator, (path, validator) ∈ vs ->
     ∃ x, ReadDeep _map path = Some x ∧ is_absent x = true) ->
  (Options.Usage opt = INIT ->
   ∀ path validator, (path, validator) ∈ vs ->
     Validator.IsRequired validator = false -> Validator.Default validator = None) ->
  range _map opt vs (dest, errors)
  = Ok (dest,
        errors ++ (if Options.Usage opt =? INIT
                   then (fun entry => required_missing entry.1)
                          <$> List.filter (fun entry => Validator.IsRequired entry.2) vs
                   else [])).
Proof.
  revert errors. induction vs as [|[path validator] rest IH]; intros errors Habsent Hdefault.
  - step_range. destruct (_ =? INIT); cbn; rewrite app_nil_r; reflexivity.
  - step_range. open_visit.
    destruct (Habsent path validator) as (x & -> & ->); [left|].
    assert (Hrest : ∀ e, range _map opt rest (dest, e)
              = Ok (dest, e ++ (if Options.Usage opt =? INIT
                                then (fun entry => required_missing entry.1)
                                       <$> List.filter (fun entry => Validator.IsRequired entry.2) rest
                                else []))).
    { intros e. apply IH.
      - intros p v Hin. apply (Habsent p v). right. exact Hin.
      - intros Hinit p v Hin. apply (Hdefault Hinit p v). right. exact Hin. }
    cbn [List.filter snd fst].
    destruct (Z.eqb_spec (Options.Usage opt) INIT) as [Hinit|Hother].
    + destruct (Validator.IsRequired validator) eqn:Ereq.
      * cbn [mbind result_bind]. rewrite Hrest, <- app_assoc. reflexivity.
      * rewrite (Hdefault Hinit path validator); [|left|exact Ereq].
        cbn [mbind result_bind]. apply Hrest.
    + cbn [mbind result_bind]. apply Hrest.
Qed.

(** When every field of the schema is absent from the document (the empty
    document, say): under any usage but INIT the pass returns the empty
    output and no error, whatever is required; under INIT, defaults apart,
    it returns the empty output and one "Required" error for each required
    validator and no other, in the order of the visit. *)
Theorem Validate_all_absent (vs : list (string * Validator.t))
    (_map : gmap string value) (opt : Options.t) :
  (∀ path validator, (path, validator) ∈ vs ->
     ∃ x, ReadDeep _map path = Some x ∧ is_absent x = true) ->
  (Options.Usage opt ≠ INIT -> Validate vs _map opt = Ok (∅, []))
  ∧ (Options.Usage opt = INIT ->
     (∀ path validator, (path, validator) ∈ vs ->
        Validator.IsRequired validator = false -> Validator.Default validator = None) ->
     Validate vs _map opt
     = Ok (∅, (fun entry => required_missing entry.1)
                <$> List.filter (fun entry => Validator.IsRequired entry.2) vs)).
Proof.
  intros Habsent. open_Validate. split.
  - intros Hother. rewrite range_all_absent; [|exact Habsent|contradiction].
    apply Z.eqb_neq in Hother. rewrite Hother. reflexivity.
  - intros Hinit Hdefault. rewrite range_all_absent; [|exact Habsent|auto].
    rewrite Hinit. reflexivity.
Qed.

End Pass.

(** Under SET [tools.WriteDeep] is never called: whatever it does, the
    pass returns the same. *)
Theorem Validate_SET_flat
    (ReadDeep : gmap string value -> string -> option value)
    (WriteDeep WriteDeep' : gmap string value -> string -> value -> option (gmap string value))
    (regexp_Compile : string -> option (string -> bool))
    (Float64 : string -> float64)
    (validators : list (string * Validator.t)) (_map : gmap string value)
    (opt : Options.t) :
  Options.Usage opt = SET ->
  Validate ReadDeep WriteDeep regexp_Compile Float64 validators _map opt
  = Validate ReadDeep WriteDeep' regexp_Compile Float64 validators _map opt.
Proof.
  intros Husage. unfold Validate. generalize (∅ : gmap string value, [] : errors_t).
  induction validators as [|[path validator] rest IH]; intros st; [reflexivity|].
  cbn [range].
  assert (Hvisit : visit ReadDeep WriteDeep regexp_Compile Float64 _map opt
                     (path, validator) st
                   = visit ReadDeep WriteDeep' regexp_Compile Float64 _map opt
                       (path, validator) st).
  { unfold visit. destruct st as [dest errors]. rewrite Husage.
    change (SET =? INIT) with false. change (SET =? SET) with true. reflexivity. }
  rewrite Hvisit.
  destruct (visit ReadDeep WriteDeep' regexp_Compile Float64 _map opt (path, validator) st);
    cbn [mbind result_bind]; [apply IH|reflexivity].
Qed.

(** A mapping against a descriptor without ["]"] (a scalar name, say) is
    never reported as a type mismatch: the empty mapping passes, and a
    mapping with an entry makes the check panic. *)
Theorem checkType_map_without_bracket (validator : Validator.t)
    (m : gmap string value) (errors : errors_t) :
  no_bracket (Validator.Type_ validator) ->
  (m = ∅ -> checkType validator (VMap m) errors = Ok (true, errors))
  ∧ (m ≠ ∅ -> ∃ p, checkType validator (VMap m) errors = Panic p).
Proof.
  intros Hty. unfold checkType. rewrite (SplitAfter_bracket_one _ Hty). split.
  - intros ->. rewrite map_to_list_empty. reflexivity.
  - intros Hne. destruct (map_to_list m) as [|[key element] rest] eqn:E.
    { apply map_to_list_empty_iff in E. contradiction. }
    cbn [checkType_entries lookup list_lookup].
    destruct (String.eqb_spec (Validator.Type_ validator) "map[bson.ObjectId]")
      as [Heq|_].
    { exfalso. rewrite Heq in Hty. unfold no_bracket in Hty. cbn in Hty.
      rewrite !Forall_cons in Hty. tauto. }
    cbn [andb]. destruct (TypeOf element); eauto.
Qed.

(** ** Required-ness is a matter for INIT only *)

Lemma checkType_elements_same (a b : Validator.t) (_type : string)
    (elements : list value) (errors : errors_t) :
  Validator.Field a = Validator.Field b ->
  checkType_elements a _type elements errors = checkType_elements b _type elements errors.
Proof.
  intros Hfield. induction elements as [|element rest IH]; [reflexivity|].
  cbn [checkType_elements]. rewrite Hfield, IH. reflexivity.
Qed.

Lemma checkType_entries_same (a b : Validator.t) (parts : list string)
    (entries : list (string * value)) (errors : errors_t) :
  Validator.Field a = Validator.Field b ->
  checkType_entries a parts entries errors = checkType_entries b parts entries errors.
Proof.
  intros Hfield. induction entries as [|[key element] rest IH]; [reflexivity|].
  cbn [checkType_entries]. rewrite Hfield, IH. reflexivity.
Qed.

Lemma checkType_same (a b : Validator.t) (x : value) (errors : errors_t) :
  same_checks a b -> checkType a x errors = checkType b x errors.
Proof.
  intros (Hty & Hfield & _). unfold checkType. rewrite Hty, Hfield.
  destruct x; try reflexivity.
  - destruct (_ <? _)%nat; [reflexivity|]. cbv zeta. destruct (negb _); [reflexivity|].
    apply checkType_elements_same, Hfield.
  - apply checkType_entries_same, Hfield.
Qed.

Lemma checkRights_same (a b : Validator.t) (usage userRights : Z) (errors : errors_t) :
  same_checks a b ->
  checkRights a usage userRights errors = checkRights b usage userRights errors.
Proof.
  intros (_ & Hfield & _ & Hrights & _).
  unfold checkRights, Validator.Rights_at, Validator.CheckRights.
  rewrite Hfield, Hrights. reflexivity.
Qed.

Section Presence.

Variable ReadDeep : gmap string value -> string -> option value.
Variable WriteDeep : gmap string value -> string -> value -> option (gmap string value).
Variable regexp_Compile : string -> option (string -> bool).
Variable Float64 : string -> float64.

Ltac open_checkValue := unfold checkValue.
Ltac open_visit := unfold visit.
Ltac open_Validate := unfold Validate.
Ltac step_range := cbn [range].

#[local] Abbreviation checkValue := (checkValue regexp_Compile Float64).
#[local] Abbreviation visit := (visit ReadDeep WriteDeep regexp_Compile Float64).
#[local] Abbreviation range := (range ReadDeep WriteDeep regexp_Compile Float64).
#[local] Abbreviation Validate := (Validate ReadDeep WriteDeep regexp_Compile Float64).

Lemma checkValue_same (a b : Validator.t) (x : value) (errors : errors_t) :
  same_checks a b -> checkValue a x errors = checkValue b x errors.
Proof.
  intros (_ & Hfield & Hregexp & _ & Hbounds & Hcustom).
  open_checkValue. unfold customTest, Validator.ExecRegexp, Validator.CheckBoundaries.
  rewrite Hfield, Hregexp, Hbounds, Hcustom. reflexivity.
Qed.

Lemma visit_same (_map : gmap string value) (opt : Options.t) (path : string)
    (a b : Validator.t) (st : gmap string value * errors_t) :
  Options.Usage opt ≠ INIT ->
  same_checks a b ->
  visit _map opt (path, a) st = visit _map opt (path, b) st.
Proof.
  intros Husage Hsame. open_visit. destruct st as [dest errors].
  apply Z.eqb_neq in Husage. rewrite Husage.
  destruct (ReadDeep _map path) as [x|]; [|reflexivity].
  destruct (is_absent x); [reflexivity|].
  destruct (if Options.Usage opt =? SET then _ else _) as [d|]; [|reflexivity].
  cbn [mbind result_bind]. rewrite (checkType_same a b x errors Hsame).
  destruct (checkType b x errors) as [[[] e1]|]; cbn [mbind result_bind negb];
    try reflexivity.
  rewrite (checkValue_same a b x e1 Hsame).
  destruct (checkValue b x e1) as [[[] e2]|]; cbn [mbind result_bind negb];
    try reflexivity.
  rewrite (checkRights_same a b _ _ e2 Hsame). reflexivity.
Qed.

(** Under any usage but INIT, [IsRequired] and [Default] are never
    consulted: two schemas whose validators differ in nothing else give the
    same output and the same errors. *)
Theorem Validate_presence_only_at_INIT (vs vs' : list (string * Validator.t))
    (_map : gmap string value) (opt : Options.t) :
  Options.Usage opt ≠ INIT ->
  Forall2 (fun entry entry' => entry.1 = entry'.1 ∧ same_checks entry.2 entry'.2)
    vs vs' ->
  Validate vs _map opt = Validate vs' _map opt.
Proof.
  intros Husage Hsame. open_Validate. generalize (∅ : gmap string value, [] : errors_t).
  induction Hsame as [|[path a] [path' b] rest rest' [Hpath Hsame] _ IH]; intros st;
    [reflexivity|].
  cbn in Hpath. subst path'. step_range.
  rewrite (visit_same _map opt path a b st Husage Hsame).
  destruct (visit _map opt (path, b) st); cbn [mbind result_bind]; [apply IH|reflexivity].
Qed.

End Presence.

(** ** The further theorems at concrete inputs *)

Lemma CheckBoundaries_convex_witness :
  Validator.CheckBoundaries Host.age (Host.Float64 "60.5") = true.
Proof.
  apply (CheckBoundaries_convex Host.age (Host.Float64 "0") (Host.Float64 "120"));
    try (vm_compute; reflexivity); left; vm_compute; reflexivity.
Defined.

Lemma CheckBoundaries_empty_witness :
  Validator.CheckBoundaries Host.upside_down (Host.Float64 "5") = false.
Proof.
  apply (CheckBoundaries_empty Host.upside_down). left. vm_compute. reflexivity.
Defined.

Lemma checkType_slice_uniform_witness :
  checkType Host.tags (VSlice [VString "a"; VString "b"]) [] = Ok (true, []).
Proof.
  apply (proj1 (checkType_slice_uniform Host.tags "string"
                  [VString "a"; VString "b"] [] eq_refl ltac:(discriminate))).
  repeat constructor.
Defined.


Lemma checkType_map_uniform_witness :
  checkType Host.members (VMap {[Host.identifier := VString "x"]}) [] = Ok (true, []).
Proof.
  apply (checkType_map_uniform Host.members "bson.ObjectId" "string"
           {[Host.identifier := VString "x"]} [] eq_refl).
  - repeat constructor; discriminate.
  - repeat constructor; discriminate.
  - apply map_Forall_singleton. split; [intros _; vm_compute|]; reflexivity.
Defined.

Lemma checkType_scalar_witness :
  checkType Host.age (VNumber "7") [] = Ok (true, []).
Proof.
  apply (proj1 (proj2 (checkType_scalar Host.age (VNumber "7") [] eq_refl)
                  "json.Number" eq_refl)).
  left. reflexivity.
Defined.

Lemma checkType_slice_descriptor_witness :
  checkType Host.name (VSlice [VNil]) []
  = Ok (false, [type_mismatch Host.name "[]interface {}"]).
Proof.
  apply (proj2 (checkType_slice_descriptor Host.name [VNil] [])).
  - cbn. lia.
  - reflexivity.
Defined.

Lemma checks_add_one_error_on_failure_witness :
  ∃ e, [type_mismatch Host.age "bool"] = [] ++ [e].
Proof.
  apply (checks_add_one_error_on_failure Host.regexp_Compile Host.Float64 Host.age
           (VBool true) GET USER [] [type_mismatch Host.age "bool"] false).
  left. reflexivity.
Defined.


Lemma Validate_one_error_per_field_witness :
  (length [out_of_boundaries Host.age "150"] ≤ 2)%nat.
Proof.
  apply (Validate_one_error_per_field Host.ReadDeep Host.WriteDeep Host.regexp_Compile
           Host.Float64 [("age", Host.age); ("name", Host.name)]
           {["age" := VNumber "150"]} (Scenario.as_user GET) {["age" := VNumber "150"]}).
  vm_compute. reflexivity.
Defined.

Lemma Validate_errors_built_in_witness :
  Forall (fun e => ∃ reason field v path validator,
            e = new_error "Validation error" reason field v
            ∧ (path, validator) ∈ [("age", Host.age); ("name", Host.name)]
            ∧ (field = path ∨ field = Validator.Field validator))
    [out_of_boundaries Host.age "150"].
Proof.
  apply (Validate_errors_built_in Host.ReadDeep Host.WriteDeep Host.regexp_Compile
           Host.Float64 [("age", Host.age); ("name", Host.name)]
           {["age" := VNumber "150"]} (Scenario.as_user GET) {["age" := VNumber "150"]}).
  - intros path validator Hin.
    apply elem_of_cons in Hin as [[= -> ->] | Hin];
      [|apply elem_of_cons in Hin as [[= -> ->] | Hin]; [|inversion Hin]];
      reflexivity.
  - vm_compute. reflexivity.
Defined.

Lemma visit_first_failure_witness :
  visit Host.ReadDeep Host.WriteDeep Host.regexp_Compile Host.Float64
    {["age" := VBool true]} (Scenario.as_user GET) ("age", Host.age) (∅, [])
  = Ok ({["age" := VBool true]}, [type_mismatch Host.age "bool"]).
Proof.
  refine (proj1 (visit_first_failure Host.ReadDeep Host.WriteDeep Host.regexp_Compile
                   Host.Float64 ({["age" := VBool true]} : gmap string value)
                   (Scenario.as_user GET) "age" Host.age ∅
                   ({["age" := VBool true]} : gmap string value) []
                   [type_mismatch Host.age "bool"] (VBool true) _ _ _) _).
  - vm_compute. reflexivity.
  - reflexivity.
  - vm_compute. reflexivity.
  - reflexivity.
Defined.

Lemma Validate_SET_order_witness :
  ∃ errors',
    Host.Validate [("owner", Host.owner); ("age", Host.age)]
      {["age" := VNumber "150"; "owner" := VString "me"]} (Scenario.as_user SET)
    = Ok ({["age" := VNumber "150"; "owner" := VString "me"]}, errors')
    ∧ [out_of_boundaries Host.age "150"; type_mismatch Host.owner "string"] ≡ₚ errors'.
Proof.
  apply (Validate_SET_order Host.ReadDeep Host.WriteDeep Host.regexp_Compile
           Host.Float64 [("age", Host.age); ("owner", Host.owner)]).
  - reflexivity.
  - refine (bool_decide_unpack _ _). vm_compute. exact I.
  - apply perm_swap.
  - vm_compute. reflexivity.
Defined.

Lemma Validate_SET_output_witness :
  ({["age" := VNumber "150"]} : gmap string value) !! "age" = Some (VNumber "150")
  <-> "age" ∈ [("age", Host.age); ("tags", Host.tags)].*1
      ∧ Host.ReadDeep {["age" := VNumber "150"; "tags" := VSlice []; "other" := VBool true]}
          "age" = Some (VNumber "150")
      ∧ is_absent (VNumber "150") = false.
Proof.
  apply (Validate_SET_output Host.ReadDeep Host.WriteDeep Host.regexp_Compile
           Host.Float64 [("age", Host.age); ("tags", Host.tags)]
           {["age" := VNumber "150"; "tags" := VSlice []; "other" := VBool true]}
           (Scenario.as_user SET) {["age" := VNumber "150"]}
           [out_of_boundaries Host.age "150"]).
  - reflexivity.
  - refine (bool_decide_unpack _ _). vm_compute. exact I.
  - vm_compute. reflexivity.
Defined.

Lemma Validate_all_absent_witness :
  Host.Validate [("age", Host.age); ("name", Host.name); ("tags", Host.tags)]
    {["tags" := VSlice []]} (Scenario.as_user INIT)
  = Ok (∅, [required_missing "name"]).
Proof.
  refine (proj2 (Validate_all_absent Host.ReadDeep Host.WriteDeep Host.regexp_Compile
                   Host.Float64 [("age", Host.age); ("name", Host.name); ("tags", Host.tags)]
                   ({["tags" := VSlice []]} : gmap string value)
                   (Scenario.as_user INIT) _) eq_refl _).
  - intros path validator Hin.
    repeat (apply elem_of_cons in Hin as [[= -> ->] | Hin]); [| | |inversion Hin];
      eexists; (split; [vm_compute; reflexivity|reflexivity]).
  - intros path validator Hin.
    repeat (apply elem_of_cons in Hin as [[= -> ->] | Hin]); [| | |inversion Hin];
      intros; reflexivity || discriminate.
Defined.

Lemma Validate_SET_flat_witness :
  Host.Validate [("age", Host.age)] {["age" := VNumber "150"]} (Scenario.as_user SET)
  = Validate Host.ReadDeep (fun _ _ _ => None) Host.regexp_Compile Host.Float64
      [("age", Host.age)] {["age" := VNumber "150"]} (Scenario.as_user SET).
Proof.
  apply (Validate_SET_flat Host.ReadDeep Host.WriteDeep (fun _ _ _ => None)).
  reflexivity.
Defined.

Lemma checkType_map_without_bracket_witness :
  ∃ p, checkType Host.age (VMap {["a" := VBool true]}) [] = Panic p.
Proof.
  apply (proj2 (checkType_map_without_bracket Host.age {["a" := VBool true]} []
                  ltac:(repeat constructor; discriminate))).
  apply insert_non_empty.
Defined.

Lemma Validate_presence_only_at_INIT_witness :
  Host.Validate [("name", Host.name)] {["name" := VNumber "1"]} (Scenario.as_user GET)
  = Host.Validate
      [("name", Validator.mk "string" "name" ""
                  (UNAUTHENTICATED, UNAUTHENTICATED, USER) Boundaries.zero false
                  (Some (fun _ => VString "anonymous")) None)]
      {["name" := VNumber "1"]} (Scenario.as_user GET).
Proof.
  apply (Validate_presence_only_at_INIT Host.ReadDeep Host.WriteDeep
           Host.regexp_Compile Host.Float64).
  - discriminate.
  - repeat constructor.
Defined.
